(** * githd: the source-control model (src/model.ts)

    A shallow embedding of [src/model.ts]: the status-line parser of
    [Resource], the log tokenizer and the other queries of [Model], and the
    subprocess text collector [runGitCommand] they are built on.

    Conventions of the embedding.
    - A JavaScript string is a [string]; one [ascii] stands for one code unit
      (Basic Latin and Latin-1 range).
    - [undefined] is [None]: a field or local that the code may leave
      unassigned has an [option] type, and reading an array out of range is
      [nth_error].
    - A JavaScript exception is a value of [exn]; code that may throw returns
      a [result].
    - The event-driven part is a transition function over the events that
      Node delivers for one child process. *)

From Stdlib Require Import List String Ascii ZArith NArith Lia Bool.
From Stdlib Require Import Numbers.DecimalString Numbers.DecimalPos.
Import ListNotations.
Open Scope string_scope.

(* ================================================================== *)
(** ** JavaScript values and library functions used by the module *)
(* ================================================================== *)

Module JS.

(** The two kinds of exception the module can raise: [new Error(msg)],
    thrown by the code itself, and the [TypeError] of the runtime (reading a
    property of [undefined], a non-string argument of [path.join]). *)
Inductive exn : Type :=
| Error (message : string)
| TypeError.

Inductive result (A : Type) : Type :=
| Ok (a : A)
| Throw (e : exn).
Arguments Ok {A} a.
Arguments Throw {A} e.

Definition bind {A B : Type} (r : result A) (k : A -> result B) : result B :=
  match r with
  | Ok a => k a
  | Throw e => Throw e
  end.

Notation "x <- r ;; k" := (bind r (fun x => k))
  (at level 61, r at next level, right associativity).

Definition TAB : string := String "009"%char "".
Definition LF : string := String "010"%char "".
Definition CR : string := String "013"%char "".

(** Truthiness of a string: only the empty string is falsy. *)
Definition truthy (s : string) : bool :=
  match s with
  | EmptyString => false
  | String _ _ => true
  end.

(** [s[0]]: the first code unit, [undefined] on the empty string. *)
Definition char0 (s : string) : option ascii :=
  match s with
  | EmptyString => None
  | String c _ => Some c
  end.

(** Upper-casing of one code unit ([toUpperCase], [toLocaleUpperCase]).  The
    letters a-z map to A-Z.  Outside a-z the model leaves the code unit alone;
    the code only ever compares the result with the labels M, A, D, R, C, and
    no code unit other than these letters and their lower-case forms has one
    of them as upper-case form (in any locale), so every comparison made by
    the code has the same outcome. *)
Definition toUpperCase1 (c : ascii) : ascii :=
  let n := nat_of_ascii c in
  if (97 <=? n)%nat && (n <=? 122)%nat then ascii_of_nat (n - 32) else c.

Fixpoint toUpperCase (s : string) : string :=
  match s with
  | EmptyString => EmptyString
  | String c s' => String (toUpperCase1 c) (toUpperCase s')
  end.

(** [s.split(sep)] for a non-empty separator string: the pieces between the
    successive leftmost, non-overlapping occurrences of [sep].  [skip] counts
    the code units of a matched separator still to be passed over and [cur]
    is the piece being accumulated. *)
Fixpoint split_from (sep : string) (skip : nat) (cur s : string) : list string :=
  match s with
  | EmptyString => [cur]
  | String c s' =>
      match skip with
      | S k => split_from sep k cur s'
      | O =>
          if prefix sep s
          then cur :: split_from sep (String.length sep - 1) "" s'
          else split_from sep 0 (cur ++ String c "") s'
      end
  end.

Definition split (sep s : string) : list string := split_from sep 0 "" s.

(** [s.split(/\r?\n/g)]: a line feed, with the carriage return before it
    when there is one, ends a piece. *)
Fixpoint split_lines_from (cur s : string) : list string :=
  match s with
  | EmptyString => [cur]
  | String c s' =>
      if Ascii.eqb c "010" then cur :: split_lines_from "" s'
      else
        match s' with
        | String c' s'' =>
            if Ascii.eqb c "013" && Ascii.eqb c' "010"
            then cur :: split_lines_from "" s''
            else split_lines_from (cur ++ String c "") s'
        | EmptyString => split_lines_from (cur ++ String c "") s'
        end
  end.

Definition split_lines (s : string) : list string := split_lines_from "" s.

(** A JavaScript number as far as [parseInt] produces one: [NaN], an
    integer that a double represents exactly, negative zero, or an
    infinity. *)
Inductive number : Type :=
| NaN
| Int (z : Z)
| NegZero
| Infinity (negative : bool).

(** The Number for the integer of magnitude [m], negative or not: the
    nearest double, ties going to the even significand, and an infinity from
    2^1024 on.  Up to 2^53 every integer is a double; from there on the
    doubles between 2^k and 2^(k+1) are the multiples of 2^(k-52). *)
Definition to_number (negative : bool) (m : Z) : number :=
  let signed (v : Z) := if negative then Int (- v) else Int v in
  if (m =? 0)%Z then (if negative then NegZero else Int 0)
  else if (m <? 2 ^ 53)%Z then signed m
  else
    let e := (Z.log2 m - 52)%Z in
    let q := (m / 2 ^ e)%Z in
    let r := (m mod 2 ^ e)%Z in
    let half := (2 ^ (e - 1))%Z in
    let q' := if (r <? half)%Z then q
              else if (half <? r)%Z then (q + 1)%Z
              else if Z.even q then q else (q + 1)%Z in
    let v := (q' * 2 ^ e)%Z in
    if (2 ^ 1024 <=? v)%Z then Infinity negative else signed v.

(** White space skipped by [parseInt] (the code units below 256 of
    StrWhiteSpaceChar). *)
Definition isWhiteSpace (c : ascii) : bool :=
  let n := nat_of_ascii c in
  ((9 <=? n)%nat && (n <=? 13)%nat) || (n =? 32)%nat || (n =? 160)%nat.

Fixpoint trimStart (s : string) : string :=
  match s with
  | EmptyString => EmptyString
  | String c s' => if isWhiteSpace c then trimStart s' else s
  end.

(** Value of a digit in radix up to 36. *)
Definition digitValue (c : ascii) : option Z :=
  let n := nat_of_ascii c in
  if (48 <=? n)%nat && (n <=? 57)%nat then Some (Z.of_nat (n - 48))
  else if (97 <=? n)%nat && (n <=? 122)%nat then Some (Z.of_nat (n - 87))
  else if (65 <=? n)%nat && (n <=? 90)%nat then Some (Z.of_nat (n - 55))
  else None.

(** The longest prefix of radix-[R] digits, as a number; [acc] is [None]
    while no digit has been read. *)
Fixpoint parseDigits (R : Z) (acc : option Z) (s : string) : option Z :=
  match s with
  | EmptyString => acc
  | String c s' =>
      match digitValue c with
      | Some d =>
          if (d <? R)%Z
          then parseDigits R (Some (match acc with
                                    | Some a => a * R + d
                                    | None => d
                                    end)%Z) s'
          else acc
      | None => acc
      end
  end.

(** [parseInt(s)] with no radix argument: white space, an optional sign, an
    optional [0x] or [0X] that switches to radix 16, then as many digits as
    there are; [NaN] when there is none, and otherwise the Number for the
    integer the digits denote. *)
Definition parseInt (s : string) : number :=
  let s1 := trimStart s in
  let '(negative, s2) :=
    match s1 with
    | String "-" r => (true, r)
    | String "+" r => (false, r)
    | _ => (false, s1)
    end in
  let '(R, s3) :=
    match s2 with
    | String "0" (String "x" r) => (16%Z, r)
    | String "0" (String "X" r) => (16%Z, r)
    | _ => (10%Z, s2)
    end in
  match parseDigits R None s3 with
  | Some v => to_number negative v
  | None => NaN
  end.

(** Template-literal rendering of an integer, as in [`--skip=${start}`]. *)
Definition string_of_Z (z : Z) : string :=
  NilZero.string_of_int (Z.to_int z).

End JS.
Import JS.

(* ================================================================== *)
(** ** URIs, resources and decorations *)
(* ================================================================== *)

(** [Uri.file(path.join(seg_1, ..., seg_n))].  Joining and normalising paths
    is the platform's business; the embedding keeps the segments. *)
Inductive Uri : Type :=
| Uri_file_join (segments : list string).

Record Resource : Type := mkResource {
  _resourceUri : option Uri;
  _file : option string;
  _status : option string
}.

Record Decorations : Type := mkDecorations {
  strikeThrough : bool;
  faded : bool;
  light : option Uri;
  dark : option Uri
}.

Inductive IconKind : Type := Modified | Added | Deleted | Renamed | Copied.

Definition iconName (k : IconKind) : string :=
  match k with
  | Modified => "status-modified"
  | Added => "status-added"
  | Deleted => "status-deleted"
  | Renamed => "status-renamed"
  | Copied => "status-copied"
  end.

(* ================================================================== *)
(** ** Events, promises and the records of the model *)
(* ================================================================== *)

(** What Node delivers for one child process.  The first four are the events
    of its standard output stream, on which [runGitCommand] registers its
    listeners; the last two are events of the process object itself
    (['error'] when it could not be spawned, ['exit'] with its status), on
    which the module registers nothing. *)
Inductive event : Type :=
| StdoutData (data : string)
| StdoutEnd
| StdoutError (err : exn)
| StdoutClose
| ProcError (err : exn)
| ProcExit (code : Z).

(** A promise; a fulfilled one carries what its continuation sees. *)
Inductive promise (A : Type) : Type :=
| Pending
| Fulfilled (a : A)
| Rejected (e : exn).
Arguments Pending {A}.
Arguments Fulfilled {A} a.
Arguments Rejected {A} e.

(** Only the first [resolve] or [reject] counts. *)
Definition settle {A : Type} (p new : promise A) : promise A :=
  match p with
  | Pending => new
  | _ => p
  end.

(** The state of one [runGitCommand] call: the text buffered so far, the
    state [endAction] works on, the promise, and the exceptions that left a
    listener (or an ['error'] event nobody listens to) and reached the host
    uncaught. *)
Record run (St : Type) : Type := mkRun {
  content : string;
  state : St;
  settled : promise St;
  uncaught : list exn
}.
Arguments mkRun {St}.
Arguments content {St}.
Arguments state {St}.
Arguments settled {St}.
Arguments uncaught {St}.

Definition optlist {A : Type} (o : option A) : list A :=
  match o with
  | Some a => [a]
  | None => []
  end.

Definition on_event {St : Type} (endAction : string -> St -> St * option exn)
    (r : run St) (ev : event) : run St :=
  match ev with
  | StdoutData data =>
      mkRun (content r ++ data) (state r) (settled r) (uncaught r)
  | StdoutEnd =>
      let '(s, thrown) := endAction (content r) (state r) in
      mkRun (content r) s (settled r) (uncaught r ++ optlist thrown)
  | StdoutError err =>
      mkRun (content r) (state r) (settle (settled r) (Rejected err)) (uncaught r)
  | StdoutClose =>
      mkRun (content r) (state r) (settle (settled r) (Fulfilled (state r))) (uncaught r)
  | ProcError err =>
      mkRun (content r) (state r) (settled r) (uncaught r ++ [err])
  | ProcExit _ => r
  end.

(** [xs.forEach((value, index) => ...)] for a body that works on a state and
    may throw; [index] is the index of the head of [xs]. *)
Fixpoint forEach {A St : Type} (body : A -> nat -> St -> St * option exn)
    (xs : list A) (index : nat) (s : St) : St * option exn :=
  match xs with
  | [] => (s, None)
  | value :: rest =>
      match body value index s with
      | (s', None) => forEach body rest (S index) s'
      | (s', Some e) => (s', Some e)
      end
  end.

Record LogEntry : Type := mkLogEntry {
  subject : option string;
  hash : option string;
  ref : option string;
  author : option string;
  email : option string;
  date : option string
}.

(** [_sha] and the [resourceStates] of the resource group. *)
Record Model : Type := mkModel {
  _sha : option string;
  resourceStates : list Resource
}.

Definition sha (this : Model) : option string := _sha this.

(** What an asynchronous method leaves behind: the object, the promise it
    returned, the processes it spawned and the exceptions nobody caught. *)
Record outcome (A : Type) : Type := mkOutcome {
  model : Model;
  returned : promise A;
  spawned : list (list string);
  escaped : list exn
}.
Arguments mkOutcome {A}.
Arguments model {A}.
Arguments returned {A}.
Arguments spawned {A}.
Arguments escaped {A}.

Definition map_promise {A B : Type} (f : A -> B) (p : promise A) : promise B :=
  match p with
  | Pending => Pending
  | Fulfilled a => Fulfilled (f a)
  | Rejected e => Rejected e
  end.

Definition entrySeparator : string := "471a2a19-885e-47f8-bff3-db43a3cdfaed".
Definition itemSeparator : string := "e69fde18-a303-4529-963d-f5b63b7b1664".

Definition format : string :=
  "--format=" ++ itemSeparator ++ "%s" ++ itemSeparator ++ "%h" ++ itemSeparator
  ++ "%d" ++ itemSeparator ++ "%aN" ++ itemSeparator ++ "%ae" ++ itemSeparator
  ++ "%cr" ++ entrySeparator.

(* ================================================================== *)
(** ** Resource: one changed file of a commit *)
(* ================================================================== *)

Section Workspace.

(** [workspace.rootPath], with a folder open in the editor, and the
    directory of the icons computed when the module is loaded. *)
Variable rootPath : string.
Variable iconsRootPath : string.

Definition getIconUri (iconName theme : string) : Uri :=
  Uri_file_join [iconsRootPath; theme; iconName ++ ".svg"].

(** [path.join] refuses an argument that is not a string. *)
Definition createUri (relativePath : option string) : result Uri :=
  match relativePath with
  | Some p => Ok (Uri_file_join [rootPath; p])
  | None => Throw TypeError
  end.

(** [Resource.Icons[theme]]: the table has the two themes only. *)
Definition Icons (theme : string) : option (IconKind -> Uri) :=
  if String.eqb theme "light" then Some (fun k => getIconUri (iconName k) "light")
  else if String.eqb theme "dark" then Some (fun k => getIconUri (iconName k) "dark")
  else None.

(** The object before [parseInfoLine] has assigned anything. *)
Definition unassigned : Resource :=
  {| _resourceUri := None; _file := None; _status := None |}.

Definition parseInfoLine (this : Resource) (info : string) : result Resource :=
  let contents := split TAB info in
  if (List.length contents <? 2)%nat then Ok this
  else
    c <- match nth_error contents 0 with
         | Some code =>
             match char0 code with
             | Some c => Ok (toUpperCase1 c)
             | None => Throw TypeError
             end
         | None => Throw TypeError
         end ;;
    file <- (if Ascii.eqb c "M" || Ascii.eqb c "A" || Ascii.eqb c "D"
             then Ok (nth_error contents 1)
             else if Ascii.eqb c "R" || Ascii.eqb c "C"
             then Ok (nth_error contents 2)
             else Throw (Error ("Cannot parse " ++ info))) ;;
    uri <- createUri file ;;
    Ok {| _resourceUri := Some uri; _file := file; _status := nth_error contents 0 |}.

(** [new Resource(info)] *)
Definition new_Resource (info : string) : result Resource :=
  parseInfoLine unassigned info.

Definition getIconPath (this : Resource) (theme : string) : result (option Uri) :=
  match _status this with
  | None => Throw TypeError
  | Some status =>
      match char0 status with
      | None => Throw TypeError
      | Some c0 =>
          let c := toUpperCase1 c0 in
          let icon (k : IconKind) : result (option Uri) :=
            match Icons theme with
            | Some table => Ok (Some (table k))
            | None => Throw TypeError
            end in
          if Ascii.eqb c "M" then icon Modified
          else if Ascii.eqb c "A" then icon Added
          else if Ascii.eqb c "D" then icon Deleted
          else if Ascii.eqb c "R" then icon Renamed
          else if Ascii.eqb c "C" then icon Copied
          else Ok None
      end
  end.

Definition decorations (this : Resource) : result Decorations :=
  l <- getIconPath this "light" ;;
  d <- getIconPath this "dark" ;;
  match _status this with
  | None => Throw TypeError
  | Some status =>
      let deleted := String.eqb (toUpperCase status) "D" in
      Ok {| strikeThrough := deleted; faded := deleted; light := l; dark := d |}
  end.

Definition file (this : Resource) : option string := _file this.

(* ================================================================== *)
(** ** The subprocess text collector *)
(* ================================================================== *)

(** The child processes of the environment: the events delivered for a
    process spawned with the given arguments. *)
Variable git : list string -> list event.

Definition runGitCommand {St : Type} (args : list string)
    (endAction : string -> St -> St * option exn) (s : St) : run St :=
  fold_left (on_event endAction) (git args) (mkRun "" s Pending []).

(* ================================================================== *)
(** ** Model: the selection and the queries *)
(* ================================================================== *)

(** The body of the [forEach] of [_updateResources]; the state is [this]
    and the local [resources]. *)
Definition updateResources_line (value : string) (index : nat)
    (s : Model * list Resource) : (Model * list Resource) * option exn :=
  let '(this, resources) := s in
  let this := if (index =? 0)%nat
              then mkModel (Some value) (resourceStates this)
              else this in
  if (1 <? index)%nat && truthy value
  then match new_Resource value with
       | Ok r => ((this, (resources ++ [r])%list), None)
       | Throw e => ((this, resources), Some e)
       end
  else ((this, resources), None).

Definition updateResources_end (content : string) (s : Model * list Resource)
    : (Model * list Resource) * option exn :=
  forEach updateResources_line (split_lines content) 0 s.

Definition _updateResources (this : Model) (sha : string) : outcome (list Resource) :=
  let args := ["show"; "--format=%h"; "--name-status"; sha] in
  let r := runGitCommand args updateResources_end (this, []) in
  mkOutcome (fst (state r)) (map_promise snd (settled r)) [args] (uncaught r).

(** [update(sha)]; [None] is a missing ([undefined], [null]) argument. *)
Definition update (this : Model) (sha : option string) : outcome unit :=
  match sha with
  | Some (String c s) =>
      let o := _updateResources this (String c s) in
      match returned o with
      | Fulfilled resources =>
          mkOutcome (mkModel (_sha (model o)) resources) (Fulfilled tt)
                    (spawned o) (escaped o)
      | Rejected e => mkOutcome (model o) (Rejected e) (spawned o) (escaped o)
      | Pending => mkOutcome (model o) Pending (spawned o) (escaped o)
      end
  | _ => mkOutcome (mkModel (_sha this) []) (Fulfilled tt) [] []
  end.

(** The six locals of one entry, all [undefined] at first; the object pushed
    is made of their values at that moment, so they share the record. *)
Definition undefined_locals : LogEntry := mkLogEntry None None None None None None.

(** The body of the inner [forEach]; the state is the six locals and
    [entries]. *)
Definition logEntries_item (value : string) (index : nat)
    (s : LogEntry * list LogEntry) : (LogEntry * list LogEntry) * option exn :=
  let '(v, entries) := s in
  if (index =? 0)%nat then (s, None)
  else
    let index := (index - 1)%nat in
    match (index mod 6)%nat with
    | 0%nat => ((mkLogEntry (Some value) (hash v) (ref v) (author v) (email v) (date v), entries), None)
    | 1%nat => ((mkLogEntry (subject v) (Some value) (ref v) (author v) (email v) (date v), entries), None)
    | 2%nat => ((mkLogEntry (subject v) (hash v) (Some value) (author v) (email v) (date v), entries), None)
    | 3%nat => ((mkLogEntry (subject v) (hash v) (ref v) (Some value) (email v) (date v), entries), None)
    | 4%nat => ((mkLogEntry (subject v) (hash v) (ref v) (author v) (Some value) (date v), entries), None)
    | 5%nat =>
        let v := mkLogEntry (subject v) (hash v) (ref v) (author v) (email v) (Some value) in
        ((v, (entries ++ [v])%list), None)
    | _ => (s, None)
    end.

(** The body of the outer [forEach]. *)
Definition logEntries_entry (entry : string) (index : nat)
    (entries : list LogEntry) : list LogEntry * option exn :=
  if negb (truthy entry) then (entries, None)
  else
    let '((_, entries), thrown) :=
      forEach logEntries_item (split itemSeparator entry) 0 (undefined_locals, entries) in
    (entries, thrown).

Definition logEntries_end (content : string) (entries : list LogEntry)
    : list LogEntry * option exn :=
  forEach logEntries_entry (split entrySeparator content) 0 entries.

Definition getLogEntries (this : Model) (start count : Z) : outcome (list LogEntry) :=
  let args := ["log"; format; "--skip=" ++ string_of_Z start;
               "--max-count=" ++ string_of_Z count] in
  let r := runGitCommand args logEntries_end [] in
  mkOutcome this (settled r) [args] (uncaught r).

(** [getCommitsCount()]; the local [count] is [undefined] until the end
    action has run. *)
Definition getCommitsCount (this : Model) : outcome (option number) :=
  let args := ["rev-list"; "--count"; "HEAD"] in
  let r := runGitCommand args
             (fun content (_ : option number) => (Some (parseInt content), None))
             None in
  mkOutcome this (settled r) [args] (uncaught r).

End Workspace.

(* ================================================================== *)
(** ** Notions used to state the properties *)
(* ================================================================== *)

(** The text made of the chunks of a stream, in order. *)
Definition text_of (chunks : list string) : string :=
  fold_right append "" chunks.

(** The events of a standard output that delivers the chunks, ends and
    closes. *)
Definition stream (chunks : list string) : list event :=
  (map StdoutData chunks ++ [StdoutEnd; StdoutClose])%list.

Definition is_exit (ev : event) : bool :=
  match ev with
  | ProcExit _ => true
  | _ => false
  end.

(** A process that was spawned and whose standard output delivers the
    chunks, ends and closes; it exits, with any status, at any moment. *)
Definition delivers (trace : list event) (chunks : list string) : Prop :=
  filter (fun ev => negb (is_exit ev)) trace = stream chunks.

(** An event of the standard output stream that settles the promise. *)
Definition settling (ev : event) : bool :=
  match ev with
  | StdoutError _ | StdoutClose => true
  | _ => false
  end.

(** An event of the process object, for which no listener exists. *)
Definition of_process (ev : event) : bool :=
  match ev with
  | ProcError _ | ProcExit _ => true
  | _ => false
  end.

(** An empty or missing commit identifier. *)
Definition falsy (sha : option string) : bool :=
  match sha with
  | Some s => negb (truthy s)
  | None => true
  end.

(** The status lines of the output of [git show]: the non-empty lines from
    the third one onward. *)
Definition status_lines (content : string) : list string :=
  filter truthy (skipn 2 (split_lines content)).

(** One [Resource] per line, in order, up to the first line on which the
    constructor throws. *)
Fixpoint resources_of (rootPath : string) (lines : list string)
    : list Resource * option exn :=
  match lines with
  | [] => ([], None)
  | line :: rest =>
      match new_Resource rootPath line with
      | Ok r => let '(rs, e) := resources_of rootPath rest in (r :: rs, e)
      | Throw e => ([], Some e)
      end
  end.

(** A fragment that is one complete record: the item separator splits it
    into a leading field and the six fields of [entry]. *)
Definition complete_record (fragment : string) (entry : LogEntry) : Prop :=
  exists lead s h r a e d,
    split itemSeparator fragment = [lead; s; h; r; a; e; d]
    /\ entry = mkLogEntry (Some s) (Some h) (Some r) (Some a) (Some e) (Some d).

(** The record of a status line: its status and its path, with the URI of
    the path in the workspace. *)
Definition resource_at (rootPath code path : string) : Resource :=
  {| _resourceUri := Some (Uri_file_join [rootPath; path]);
     _file := Some path;
     _status := Some code |}.

(** [sep] starts at none of the positions of [s] in the text [s ++ after]. *)
Fixpoint starts_nowhere (sep s after : string) : bool :=
  match s with
  | EmptyString => true
  | String _ s' => negb (prefix sep (s ++ after)) && starts_nowhere sep s' after
  end.

(** One commit as [git log] prints it with [format]: what precedes the
    first item separator (nothing, or the line feed that ends the previous
    record) and the six fields. *)
Record LogRecord : Type := mkLogRecord {
  lead : string;
  r_subject : string;
  r_hash : string;
  r_ref : string;
  r_author : string;
  r_email : string;
  r_date : string
}.

Definition rendered_fragment (x : LogRecord) : string :=
  lead x ++ itemSeparator ++ r_subject x ++ itemSeparator ++ r_hash x
  ++ itemSeparator ++ r_ref x ++ itemSeparator ++ r_author x ++ itemSeparator
  ++ r_email x ++ itemSeparator ++ r_date x.

(** The records, each followed by the entry separator, and what follows the
    last separator. *)
Definition rendered (xs : list LogRecord) (trailer : string) : string :=
  fold_right (fun x rest => rendered_fragment x ++ entrySeparator ++ rest) trailer xs.

Definition entry_of (x : LogRecord) : LogEntry :=
  mkLogEntry (Some (r_subject x)) (Some (r_hash x)) (Some (r_ref x))
             (Some (r_author x)) (Some (r_email x)) (Some (r_date x)).

(** The separators occur in the rendering of the record where [format] puts
    them and nowhere else. *)
Definition unambiguous (x : LogRecord) : bool :=
  starts_nowhere entrySeparator (rendered_fragment x) entrySeparator
  && starts_nowhere itemSeparator (lead x) itemSeparator
  && starts_nowhere itemSeparator (r_subject x) itemSeparator
  && starts_nowhere itemSeparator (r_hash x) itemSeparator
  && starts_nowhere itemSeparator (r_ref x) itemSeparator
  && starts_nowhere itemSeparator (r_author x) itemSeparator
  && starts_nowhere itemSeparator (r_email x) itemSeparator
  && starts_nowhere itemSeparator (r_date x) "".

(** The letters of the status codes, in both cases. *)
Definition plain_codes : list ascii := ["M"; "m"; "A"; "a"; "D"; "d"]%char.
Definition rename_copy_codes : list ascii := ["R"; "r"; "C"; "c"]%char.

(* ================================================================== *)
(** ** The branch name, and notions for the further properties *)
(* ================================================================== *)

(** [s.trim()]: white space is removed at both ends. *)
Fixpoint trimEnd (s : string) : string :=
  match s with
  | EmptyString => EmptyString
  | String c s' =>
      match trimEnd s' with
      | EmptyString => if isWhiteSpace c then EmptyString else String c EmptyString
      | t => String c t
      end
  end.

Definition trim (s : string) : string := trimEnd (trimStart s).

(** [getCurrentBranch()]; the local [name] is the empty string until the end
    action has run. *)
Definition getCurrentBranch (git : list string -> list event) (this : Model)
    : outcome string :=
  let args := ["rev-parse"; "--abbrev-ref"; "HEAD"] in
  let r := runGitCommand git args
             (fun content (_ : string) => (content, None)) "" in
  mkOutcome this (map_promise trim (settled r)) [args] (uncaught r).

Fixpoint all_white (s : string) : bool :=
  match s with
  | EmptyString => true
  | String c s' => isWhiteSpace c && all_white s'
  end.

(** The chunks of the ['data'] events of a trace, in order. *)
Fixpoint data_of (trace : list event) : list string :=
  match trace with
  | [] => []
  | StdoutData d :: rest => d :: data_of rest
  | _ :: rest => data_of rest
  end.

Definition is_end (ev : event) : bool :=
  match ev with
  | StdoutEnd => true
  | _ => false
  end.

(** The fields of a fragment taken six at a time; what is left after the
    last complete group is dropped. *)
Fixpoint groups_of_six (fields : list string) : list LogEntry :=
  match fields with
  | s :: h :: r :: a :: e :: d :: rest =>
      mkLogEntry (Some s) (Some h) (Some r) (Some a) (Some e) (Some d)
      :: groups_of_six rest
  | _ => []
  end.

(** The entries of one fragment: the groups of its fields, the leading one
    apart. *)
Definition entries_of_fragment (fragment : string) : list LogEntry :=
  groups_of_six (tl (split itemSeparator fragment)).

Definition tokenized (text : string) : list LogEntry :=
  flat_map entries_of_fragment (split entrySeparator text).

(** An entry none of whose fields is [undefined]. *)
Definition fully_defined (entry : LogEntry) : Prop :=
  subject entry <> None /\ hash entry <> None /\ ref entry <> None
  /\ author entry <> None /\ email entry <> None /\ date entry <> None.

(** A line: a text without line feed and carriage return. *)
Fixpoint one_line (s : string) : bool :=
  match s with
  | EmptyString => true
  | String c s' =>
      negb (Ascii.eqb c "010") && negb (Ascii.eqb c "013") && one_line s'
  end.

(** The lines, each followed by the line terminator [eol]. *)
Definition unlines (eol : string) (lines : list string) : string :=
  fold_right (fun line rest => line ++ eol ++ rest) "" lines.

(** A record the constructor has assigned: a status that starts with one of
    the codes, a path that is a field of the line, and the URI of that path. *)
Definition assigned_from (rootPath info : string) (r : Resource) : Prop :=
  exists c tail path,
    r = resource_at rootPath (String c tail) path
    /\ nth_error (split TAB info) 0 = Some (String c tail)
    /\ In c (plain_codes ++ rename_copy_codes)
    /\ In path (tl (split TAB info)).

(* ================================================================== *)
(** ** Properties *)
(* ================================================================== *)

(** *** Strings and upper-casing *)

Lemma append_nil_r (s : string) : s ++ "" = s.
Proof. induction s as [|c s IH]; simpl; [reflexivity | now rewrite IH]. Qed.

Lemma append_assoc (s t u : string) : (s ++ t) ++ u = s ++ (t ++ u).
Proof. induction s as [|c s IH]; simpl; [reflexivity | now rewrite IH]. Qed.

Lemma length_append (s t : string) :
  String.length (s ++ t) = (String.length s + String.length t)%nat.
Proof. induction s as [|c s IH]; simpl; [reflexivity | now rewrite IH]. Qed.

Lemma prefix_nil (s : string) : prefix "" s = true.
Proof. now destruct s. Qed.

Lemma prefix_append (sep rest : string) : prefix sep (sep ++ rest) = true.
Proof.
  induction sep as [|c sep IH]; simpl.
  - apply prefix_nil.
  - destruct (ascii_dec c c) as [_|n]; [exact IH | now elim n].
Qed.

(** Whether [sep] starts a text is decided by as many code units as [sep]
    has. *)
Lemma prefix_append_long (sep x rest : string) :
  (String.length sep <= String.length x)%nat ->
  prefix sep (x ++ rest) = prefix sep x.
Proof.
  revert x. induction sep as [|a sep IH]; intros x Hlen.
  - now rewrite !prefix_nil.
  - destruct x as [|b x]; simpl in Hlen; [lia|].
    simpl. destruct (ascii_dec a b); [apply IH; lia | reflexivity].
Qed.

Lemma starts_nowhere_local (sep s after rest : string) :
  (String.length sep <= S (String.length after))%nat ->
  starts_nowhere sep s (after ++ rest) = starts_nowhere sep s after.
Proof.
  intros Hlen. induction s as [|c s IH].
  - reflexivity.
  - cbn [starts_nowhere]. rewrite IH. f_equal. f_equal.
    rewrite <- append_assoc. apply prefix_append_long.
    rewrite length_append. simpl. lia.
Qed.

(** *** Cutting a text at a separator *)

Section Split.

Variable sep : string.
Hypothesis sep_not_empty : sep <> "".

(** Where the separator starts nowhere, the scan only accumulates. *)
Lemma split_from_scan (s after cur : string) :
  starts_nowhere sep s after = true ->
  split_from sep 0 cur (s ++ after) = split_from sep 0 (cur ++ s) after.
Proof.
  revert cur. induction s as [|c s IH]; intros cur Hs.
  - now rewrite append_nil_r.
  - cbn [starts_nowhere] in Hs. apply andb_prop in Hs. destruct Hs as [Hp Hs].
    apply negb_true_iff in Hp.
    change ((String c s) ++ after) with (String c (s ++ after)) in *.
    cbn [split_from]. rewrite Hp. rewrite IH by assumption.
    f_equal. rewrite append_assoc. reflexivity.
Qed.

Lemma split_from_skip (x rest cur : string) :
  split_from sep (String.length x) cur (x ++ rest) = split_from sep 0 cur rest.
Proof.
  induction x as [|c x IH]; simpl.
  - now destruct rest.
  - exact IH.
Qed.

Lemma split_from_separator (rest cur : string) :
  split_from sep 0 cur (sep ++ rest) = cur :: split_from sep 0 "" rest.
Proof.
  pose proof (prefix_append sep rest) as Hp.
  destruct sep as [|c sep'] eqn:E; [now elim sep_not_empty|].
  change ((String c sep') ++ rest) with (String c (sep' ++ rest)) in *.
  cbn [split_from]. rewrite Hp. f_equal.
  cbn [String.length]. rewrite Nat.sub_1_r. cbn [Nat.pred].
  rewrite <- E. clear. revert rest.
  induction sep' as [|d sep' IH]; intros rest; simpl.
  - now destruct rest.
  - apply IH.
Qed.

(** A piece in which the separator starts nowhere, followed by the
    separator, is cut off as it is. *)
Lemma split_from_piece (piece rest cur : string) :
  starts_nowhere sep piece sep = true ->
  split_from sep 0 cur (piece ++ sep ++ rest)
  = (cur ++ piece) :: split_from sep 0 "" rest.
Proof.
  intros Hp.
  rewrite split_from_scan.
  - apply split_from_separator.
  - rewrite starts_nowhere_local; [exact Hp | lia].
Qed.

Lemma split_from_last (piece cur : string) :
  starts_nowhere sep piece "" = true ->
  split_from sep 0 cur piece = [cur ++ piece].
Proof.
  intros Hp. rewrite <- (append_nil_r piece) at 1.
  rewrite split_from_scan by assumption. reflexivity.
Qed.

End Split.

Lemma upper_plain (c : ascii) :
  In c plain_codes <->
  (Ascii.eqb (toUpperCase1 c) "M" || Ascii.eqb (toUpperCase1 c) "A"
   || Ascii.eqb (toUpperCase1 c) "D") = true.
Proof.
  unfold plain_codes.
  destruct c as [[] [] [] [] [] [] [] []]; vm_compute;
    (split; [ intros H; first [reflexivity | repeat (destruct H as [H|H]; try discriminate H); contradiction]
            | intros H; first [discriminate H | tauto ] ]).
Qed.

Lemma upper_rename_copy (c : ascii) :
  In c rename_copy_codes <->
  (Ascii.eqb (toUpperCase1 c) "R" || Ascii.eqb (toUpperCase1 c) "C") = true.
Proof.
  unfold rename_copy_codes.
  destruct c as [[] [] [] [] [] [] [] []]; vm_compute;
    (split; [ intros H; first [reflexivity | repeat (destruct H as [H|H]; try discriminate H); contradiction]
            | intros H; first [discriminate H | tauto ] ]).
Qed.

Lemma plain_not_rename_copy (c : ascii) :
  In c plain_codes -> ~ In c rename_copy_codes.
Proof.
  unfold plain_codes, rename_copy_codes; simpl.
  intros H K.
  repeat (destruct H as [H|H]; [subst c; repeat (destruct K as [K|K]; [discriminate K|]); exact K|]).
  exact H.
Qed.

(** *** The status-line parser *)

Section ParseInfoLine.

Variable rootPath : string.

(** What the constructor does on a line of at least two fields whose first
    field is not empty, by the branch of the [switch] taken. *)
Lemma new_Resource_by_branch (info : string) (c : ascii) (tail second : string)
    (rest : list string) :
  split TAB info = String c tail :: second :: rest ->
  new_Resource rootPath info =
    if Ascii.eqb (toUpperCase1 c) "M" || Ascii.eqb (toUpperCase1 c) "A"
       || Ascii.eqb (toUpperCase1 c) "D"
    then Ok (resource_at rootPath (String c tail) second)
    else if Ascii.eqb (toUpperCase1 c) "R" || Ascii.eqb (toUpperCase1 c) "C"
    then match rest with
         | third :: _ => Ok (resource_at rootPath (String c tail) third)
         | [] => Throw TypeError
         end
    else Throw (Error ("Cannot parse " ++ info)).
Proof.
  intros Hsplit.
  unfold new_Resource, parseInfoLine.
  rewrite Hsplit. cbn [List.length Nat.ltb Nat.leb nth_error char0 bind].
  destruct (Ascii.eqb (toUpperCase1 c) "M" || Ascii.eqb (toUpperCase1 c) "A"
            || Ascii.eqb (toUpperCase1 c) "D").
  - reflexivity.
  - destruct (Ascii.eqb (toUpperCase1 c) "R" || Ascii.eqb (toUpperCase1 c) "C").
    + destruct rest as [|third rest']; reflexivity.
    + reflexivity.
Qed.

(** A line with fewer than two fields leaves every field unassigned, and
    the constructor returns the object all the same. *)
Lemma new_Resource_short_line (info : string) :
  (List.length (split TAB info) < 2)%nat ->
  new_Resource rootPath info = Ok unassigned.
Proof.
  intros Hlen. unfold new_Resource, parseInfoLine.
  apply Nat.ltb_lt in Hlen. now rewrite Hlen.
Qed.

End ParseInfoLine.

(** C1, as amended.  On a line of at least two fields whose first field
    starts with M, A or D (in either case), the constructor succeeds: the
    file is the second field and the status is the first field, whole.  On a
    line of at least three fields whose first field starts with R or C, it
    succeeds too: the file is the third field (the last one of a three-field
    line) and the status is the first field, whole. *)
Theorem new_Resource_recognized (rootPath info : string) (c : ascii)
    (tail second : string) (rest : list string) :
  split TAB info = String c tail :: second :: rest ->
  (In c plain_codes ->
     new_Resource rootPath info = Ok (resource_at rootPath (String c tail) second))
  /\ (In c rename_copy_codes ->
      forall third rest', rest = third :: rest' ->
        new_Resource rootPath info = Ok (resource_at rootPath (String c tail) third)).
Proof.
  intros Hsplit.
  rewrite (new_Resource_by_branch rootPath info c tail second rest Hsplit).
  split.
  - intros Hc. apply upper_plain in Hc. now rewrite Hc.
  - intros Hc third rest' ->.
    assert (Hn : ~ In c plain_codes)
      by (intros K; exact (plain_not_rename_copy c K Hc)).
    destruct (Ascii.eqb (toUpperCase1 c) "M" || Ascii.eqb (toUpperCase1 c) "A"
              || Ascii.eqb (toUpperCase1 c) "D") eqn:E.
    + exfalso. apply Hn. now apply upper_plain.
    + apply upper_rename_copy in Hc. now rewrite Hc.
Qed.

Lemma new_Resource_recognized_witness :
  new_Resource "/repo" ("R100" ++ TAB ++ "old/name.ts" ++ TAB ++ "new/name.ts")
  = Ok (resource_at "/repo" "R100" "new/name.ts").
Proof.
  refine (proj2 (new_Resource_recognized "/repo"
                   ("R100" ++ TAB ++ "old/name.ts" ++ TAB ++ "new/name.ts") "R" "100" "old/name.ts"
                   ["new/name.ts"] eq_refl) _ "new/name.ts" [] eq_refl).
  unfold rename_copy_codes. simpl. tauto.
Defined.

(** C1 as stated fails on a rename line of two fields: the code is
    recognized and there are two fields, yet no record is produced. *)
Lemma new_Resource_two_field_rename_fails :
  split TAB ("R100" ++ TAB ++ "old/name.ts") = ["R100"; "old/name.ts"]
  /\ In "R"%char rename_copy_codes
  /\ new_Resource "/repo" ("R100" ++ TAB ++ "old/name.ts") = Throw TypeError
  /\ forall r, new_Resource "/repo" ("R100" ++ TAB ++ "old/name.ts") <> Ok r.
Proof.
  split; [reflexivity|]. split; [simpl; tauto|].
  split; [reflexivity|]. intros r. discriminate.
Qed.

(** C5.  On a line of at least two fields whose first field starts with a
    character that is none of M, A, D, R, C in either case, the constructor
    throws the error "Cannot parse" followed by the line. *)
Theorem new_Resource_unrecognized (rootPath info : string) (c : ascii)
    (tail second : string) (rest : list string) :
  split TAB info = String c tail :: second :: rest ->
  ~ In c (plain_codes ++ rename_copy_codes) ->
  new_Resource rootPath info = Throw (Error ("Cannot parse " ++ info)).
Proof.
  intros Hsplit Hc.
  rewrite (new_Resource_by_branch rootPath info c tail second rest Hsplit).
  destruct (Ascii.eqb (toUpperCase1 c) "M" || Ascii.eqb (toUpperCase1 c) "A"
            || Ascii.eqb (toUpperCase1 c) "D") eqn:E.
  - exfalso. apply Hc, in_or_app. left. now apply upper_plain.
  - destruct (Ascii.eqb (toUpperCase1 c) "R" || Ascii.eqb (toUpperCase1 c) "C") eqn:F.
    + exfalso. apply Hc, in_or_app. right. now apply upper_rename_copy.
    + reflexivity.
Qed.

Lemma new_Resource_unrecognized_witness :
  new_Resource "/repo" ("U" ++ TAB ++ "src/both.ts")
  = Throw (Error ("Cannot parse " ++ ("U" ++ TAB ++ "src/both.ts"))).
Proof.
  apply (new_Resource_unrecognized "/repo" ("U" ++ TAB ++ "src/both.ts")
           "U" "" "src/both.ts" [] eq_refl).
  unfold plain_codes, rename_copy_codes. simpl.
  intros H. repeat (destruct H as [H|H]; [discriminate H|]). exact H.
Defined.

(** C10.  On a line of exactly two fields whose first field starts with R
    or C, the third field read by the code does not exist, the file is
    [undefined], and building the URI from it throws a [TypeError]: no record
    is produced, and the failure is not the "Cannot parse" error. *)
Theorem new_Resource_rename_two_fields (rootPath info : string) (c : ascii)
    (tail second : string) :
  split TAB info = [String c tail; second] ->
  In c rename_copy_codes ->
  nth_error (split TAB info) 2 = None
  /\ createUri rootPath (nth_error (split TAB info) 2) = Throw TypeError
  /\ new_Resource rootPath info = Throw TypeError
  /\ new_Resource rootPath info <> Throw (Error ("Cannot parse " ++ info))
  /\ forall r, new_Resource rootPath info <> Ok r.
Proof.
  intros Hsplit Hc.
  assert (Hres : new_Resource rootPath info = Throw TypeError).
  { rewrite (new_Resource_by_branch rootPath info c tail second [] Hsplit).
    assert (Hn : ~ In c plain_codes)
      by (intros K; exact (plain_not_rename_copy c K Hc)).
    destruct (Ascii.eqb (toUpperCase1 c) "M" || Ascii.eqb (toUpperCase1 c) "A"
              || Ascii.eqb (toUpperCase1 c) "D") eqn:E.
    - exfalso. apply Hn. now apply upper_plain.
    - apply upper_rename_copy in Hc. now rewrite Hc. }
  rewrite Hsplit, Hres. repeat split; try reflexivity; intros; discriminate.
Qed.

Lemma new_Resource_rename_two_fields_witness :
  new_Resource "/repo" ("C075" ++ TAB ++ "src/a.ts") = Throw TypeError.
Proof.
  refine (proj1 (proj2 (proj2
            (new_Resource_rename_two_fields "/repo" ("C075" ++ TAB ++ "src/a.ts")
               "C" "075" "src/a.ts" eq_refl _)))).
  unfold rename_copy_codes. simpl. tauto.
Defined.

(** C3 on the code.  A line without a tab has one field; the constructor
    returns a record none of whose fields is assigned, and the decorations of
    that record cannot be computed.  Such a line is the third line that
    [git show] prints for an annotated tag, and [update] publishes the
    record. *)
Theorem new_Resource_one_field_unassigned :
  let line := "Date:   Mon Jan 2 15:04:05 2017 +0000" in
  let output := "tag v1.0" ++ LF ++ "Tagger: Ann <ann@example.com>" ++ LF
                ++ line ++ LF in
  List.length (split TAB line) = 1%nat
  /\ new_Resource "/repo" line = Ok unassigned
  /\ decorations "/icons" unassigned = Throw TypeError
  /\ resourceStates
       (model (update "/repo" (fun _ => stream [output]) (mkModel None [])
                 (Some "v1.0"))) = [unassigned].
Proof. repeat split; reflexivity. Qed.

(** *** The subprocess text collector *)

Section RunGitCommand.

Context {St : Type}.
Variable endAction : string -> St -> St * option exn.

Lemma settled_on_event (r : run St) (ev : event) :
  settled (on_event endAction r ev) =
    match ev with
    | StdoutError err => settle (settled r) (Rejected err)
    | StdoutClose => settle (settled r) (Fulfilled (state r))
    | _ => settled r
    end.
Proof.
  destruct ev; simpl; try reflexivity.
  now destruct (endAction (content r) (state r)).
Qed.

(** A settled promise stays as it is. *)
Lemma settled_stable (trace : list event) (r : run St) :
  settled r <> Pending ->
  settled (fold_left (on_event endAction) trace r) = settled r.
Proof.
  revert r. induction trace as [|ev trace IH]; intros r Hr; simpl.
  - reflexivity.
  - assert (E : settled (on_event endAction r ev) = settled r).
    { rewrite settled_on_event.
      destruct ev; try reflexivity; destruct (settled r); simpl; congruence. }
    rewrite IH; rewrite E; auto.
Qed.

Lemma rejected_iff_stream_error (trace : list event) (r : run St) (e : exn) :
  settled r = Pending ->
  (settled (fold_left (on_event endAction) trace r) = Rejected e
   <-> exists pre post,
         trace = (pre ++ StdoutError e :: post)%list
         /\ forallb (fun ev => negb (settling ev)) pre = true).
Proof.
  revert r. induction trace as [|ev trace IH]; intros r Hr; simpl.
  - split.
    + intros H. congruence.
    + intros (pre & post & H & _). destruct pre; discriminate H.
  - pose proof (settled_on_event r ev) as Hev.
    destruct (settling ev) eqn:Hs.
    + (* the event settles the promise *)
      assert (Hne : settled (on_event endAction r ev) <> Pending).
      { rewrite Hev. destruct ev; try discriminate Hs; rewrite Hr; simpl; discriminate. }
      rewrite (settled_stable trace _ Hne), Hev.
      split.
      * intros H. destruct ev; try discriminate Hs; rewrite Hr in H; simpl in H.
        -- injection H as ->. now exists [], trace.
        -- discriminate H.
      * intros (pre & post & H & Hpre).
        destruct pre as [|ev' pre]; simpl in H.
        -- injection H as -> _. now rewrite Hr.
        -- injection H as -> _. simpl in Hpre. rewrite Hs in Hpre. discriminate Hpre.
    + (* the event leaves the promise pending *)
      assert (Hp : settled (on_event endAction r ev) = Pending).
      { rewrite Hev. destruct ev; try discriminate Hs; exact Hr. }
      rewrite (IH _ Hp).
      split.
      * intros (pre & post & -> & Hpre).
        exists (ev :: pre), post. split; [reflexivity|].
        simpl. now rewrite Hs.
      * intros (pre & post & H & Hpre).
        destruct pre as [|ev' pre]; simpl in H.
        -- injection H as -> _. discriminate Hs.
        -- injection H as -> ->. exists pre, post. split; [reflexivity|].
           simpl in Hpre. now apply andb_prop in Hpre.
Qed.

(** Events of the process object change neither the text, nor the state of
    the end action, nor the promise. *)
Lemma process_events_unheard (trace : list event) (r r' : run St) :
  content r = content r' -> state r = state r' -> settled r = settled r' ->
  let after := fold_left (on_event endAction) trace r in
  let after' := fold_left (on_event endAction)
                  (filter (fun ev => negb (of_process ev)) trace) r' in
  content after = content after' /\ state after = state after'
  /\ settled after = settled after'.
Proof.
  revert r r'. induction trace as [|ev trace IH]; intros r r' Hc Hs Hp; simpl.
  - auto.
  - destruct ev; simpl; try (apply IH; simpl; congruence).
    rewrite <- Hc, <- Hs.
    destruct (endAction (content r) (state r)) as [s thrown].
    apply IH; simpl; congruence.
Qed.

(** A stream that delivers its chunks, ends and closes: the end action runs
    once, on the whole text, and the promise is fulfilled after it. *)
Lemma run_stream (chunks : list string) (text : string) (s : St)
    (thrown : list exn) :
  fold_left (on_event endAction) (stream chunks) (mkRun text s Pending thrown) =
    mkRun (text ++ text_of chunks)
          (fst (endAction (text ++ text_of chunks) s))
          (Fulfilled (fst (endAction (text ++ text_of chunks) s)))
          (thrown ++ optlist (snd (endAction (text ++ text_of chunks) s))).
Proof.
  revert text. induction chunks as [|d chunks IH]; intros text.
  - unfold stream. simpl. rewrite append_nil_r.
    now destruct (endAction text s).
  - unfold stream in *. simpl. rewrite IH. now rewrite append_assoc.
Qed.

(** The exit of the process is not an event the run reacts to. *)
Lemma run_ignores_exit (trace : list event) (r : run St) :
  fold_left (on_event endAction) trace r
  = fold_left (on_event endAction) (filter (fun ev => negb (is_exit ev)) trace) r.
Proof.
  revert r. induction trace as [|ev trace IH]; intros r.
  - reflexivity.
  - destruct ev; simpl; apply IH.
Qed.

Lemma run_delivers (trace : list event) (chunks : list string) (s : St) :
  delivers trace chunks ->
  fold_left (on_event endAction) trace (mkRun "" s Pending []) =
    mkRun (text_of chunks)
          (fst (endAction (text_of chunks) s))
          (Fulfilled (fst (endAction (text_of chunks) s)))
          (optlist (snd (endAction (text_of chunks) s))).
Proof.
  intros Hd. rewrite run_ignores_exit, Hd. apply run_stream.
Qed.

End RunGitCommand.

(** C4, as amended.  The promise of [runGitCommand] is rejected with [e]
    exactly when the standard output stream emits the error [e] before it
    emits any other error or closes.  Events of the process object (it could
    not be spawned, it exited with some status) are not listened to: the
    buffered text, what the end action did and the promise are the same as if
    they had not occurred. *)
Theorem runGitCommand_rejects_on_stream_error_only {St : Type}
    (git : list string -> list event) (args : list string)
    (endAction : string -> St -> St * option exn) (s : St) :
  (forall e,
     settled (runGitCommand git args endAction s) = Rejected e
     <-> exists pre post,
           git args = (pre ++ StdoutError e :: post)%list
           /\ forallb (fun ev => negb (settling ev)) pre = true)
  /\ (let heard := fun a => filter (fun ev => negb (of_process ev)) (git a) in
      content (runGitCommand git args endAction s)
        = content (runGitCommand heard args endAction s)
      /\ state (runGitCommand git args endAction s)
        = state (runGitCommand heard args endAction s)
      /\ settled (runGitCommand git args endAction s)
        = settled (runGitCommand heard args endAction s)).
Proof.
  split.
  - intros e. unfold runGitCommand. now apply rejected_iff_stream_error.
  - unfold runGitCommand. now apply process_events_unheard.
Qed.

(** C4 as stated fails on a process that exits with a failure status and an
    empty output: the end action receives the empty text and the promise is
    fulfilled. *)
Lemma runGitCommand_failed_process_resolves :
  let git := fun _ : list string => [ProcExit 128; StdoutEnd; StdoutClose] in
  let r := runGitCommand git ["show"; "--format=%h"; "--name-status"; "0000000"]
             (fun content (_ : option string) => (Some content, None)) None in
  settled r = Fulfilled (Some "") /\ uncaught r = []
  /\ forall e, settled r <> Rejected e.
Proof. repeat split; try reflexivity. intros e; discriminate. Qed.

(** *** The commit count *)

(** C2, as amended.  When the process delivers its output and closes,
    [getCommitsCount] is fulfilled with [parseInt] of the whole output: with
    42 when the output is "42" followed by a line feed, and with [NaN] when
    [parseInt] finds no integer in it; in neither case is anything thrown or
    rejected. *)
Theorem getCommitsCount_parseInt (git : list string -> list event)
    (this : Model) (chunks : list string) :
  delivers (git ["rev-list"; "--count"; "HEAD"]) chunks ->
  let o := getCommitsCount git this in
  returned o = Fulfilled (Some (parseInt (text_of chunks)))
  /\ escaped o = []
  /\ (text_of chunks = "42" ++ LF -> returned o = Fulfilled (Some (Int 42)))
  /\ (parseInt (text_of chunks) = NaN -> returned o = Fulfilled (Some NaN)).
Proof.
  intros Hgit o.
  assert (H : returned o = Fulfilled (Some (parseInt (text_of chunks)))
              /\ escaped o = []).
  { subst o. unfold getCommitsCount, runGitCommand.
    rewrite (run_delivers _ _ _ _ Hgit). simpl. auto. }
  destruct H as [Hr He]. repeat split; try assumption.
  - intros Htext. rewrite Hr, Htext. reflexivity.
  - intros Hnan. now rewrite Hr, Hnan.
Qed.

Lemma getCommitsCount_parseInt_witness :
  returned (getCommitsCount
              (fun _ => [StdoutData "4"; StdoutData ("2" ++ LF); ProcExit 0;
                         StdoutEnd; StdoutClose])
              (mkModel None []))
  = Fulfilled (Some (Int 42)).
Proof.
  refine (proj1 (proj2 (proj2
            (getCommitsCount_parseInt
               (fun _ => [StdoutData "4"; StdoutData ("2" ++ LF); ProcExit 0;
                          StdoutEnd; StdoutClose])
               (mkModel None []) ["4"; "2" ++ LF] eq_refl))) eq_refl).
Defined.

(** C2 as stated fails on an output that is not a number: the promise is
    fulfilled with [NaN] and nothing is thrown. *)
Lemma getCommitsCount_non_numeric_is_NaN :
  let o := getCommitsCount
             (fun _ => [StdoutData ("unknown" ++ LF); StdoutEnd; ProcExit 0;
                        StdoutClose])
             (mkModel None []) in
  returned o = Fulfilled (Some NaN) /\ escaped o = []
  /\ forall e, returned o <> Rejected e.
Proof. repeat split; try reflexivity. intros e; discriminate. Qed.

(** *** The selection *)

(** C7.  [update] with an empty or missing commit identifier sets the
    published list to the empty list, spawns no process, and is fulfilled. *)
Theorem update_falsy_clears (rootPath : string) (git : list string -> list event)
    (this : Model) (sha : option string) :
  falsy sha = true ->
  let o := update rootPath git this sha in
  resourceStates (model o) = [] /\ spawned o = []
  /\ returned o = Fulfilled tt /\ _sha (model o) = _sha this.
Proof.
  intros Hf o. subst o.
  destruct sha as [[|c s]|]; simpl in *; try discriminate Hf; auto.
Qed.

Lemma update_falsy_clears_witness :
  let o := update "/repo" (fun _ => stream ["abc1234" ++ LF])
             (mkModel (Some "abc1234") [resource_at "/repo" "M" "src/foo.ts"])
             (Some "") in
  resourceStates (model o) = [] /\ spawned o = []
  /\ returned o = Fulfilled tt /\ _sha (model o) = Some "abc1234".
Proof.
  exact (update_falsy_clears "/repo" (fun _ => stream ["abc1234" ++ LF])
           (mkModel (Some "abc1234") [resource_at "/repo" "M" "src/foo.ts"])
           (Some "") eq_refl).
Defined.

(** *** Commit-diff retrieval *)

Lemma split_lines_from_not_nil (s cur : string) : split_lines_from cur s <> [].
Proof.
  revert cur. induction s as [|c s IH]; intros cur; simpl.
  - discriminate.
  - destruct (Ascii.eqb c "010"); [discriminate|].
    destruct s as [|c' s'].
    + apply IH.
    + destruct (Ascii.eqb c "013" && Ascii.eqb c' "010"); [discriminate|apply IH].
Qed.

Section UpdateResources.

Variable rootPath : string.

(** From the third line on, the loop pushes one record per non-empty line
    and stops at the first line on which the constructor throws. *)
Lemma forEach_from_third_line (lines : list string) (index : nat) (this : Model)
    (resources : list Resource) :
  (2 <= index)%nat ->
  forEach (updateResources_line rootPath) lines index (this, resources) =
    ((this, resources ++ fst (resources_of rootPath (filter truthy lines)))%list,
     snd (resources_of rootPath (filter truthy lines))).
Proof.
  revert index resources.
  induction lines as [|value rest IH]; intros index resources Hi.
  - simpl. now rewrite app_nil_r.
  - destruct index as [|[|k]]; try lia.
    cbn [forEach updateResources_line Nat.eqb Nat.ltb Nat.leb andb filter].
    destruct (truthy value) eqn:Hv.
    + cbn [resources_of].
      destruct (new_Resource rootPath value) as [r|e].
      * rewrite IH by lia.
        destruct (resources_of rootPath (filter truthy rest)) as [rs e'].
        simpl. now rewrite <- app_assoc.
      * simpl. now rewrite app_nil_r.
    + now rewrite IH by lia.
Qed.

Lemma updateResources_end_spec (content : string) (this : Model) :
  updateResources_end rootPath content (this, []) =
    ((mkModel (nth_error (split_lines content) 0) (resourceStates this),
      fst (resources_of rootPath (status_lines content))),
     snd (resources_of rootPath (status_lines content))).
Proof.
  unfold updateResources_end, status_lines.
  pose proof (split_lines_from_not_nil content "") as Hne.
  fold (split_lines content) in Hne.
  destruct (split_lines content) as [|first [|second rest]].
  - contradiction.
  - reflexivity.
  - cbn [forEach updateResources_line Nat.eqb Nat.ltb Nat.leb andb skipn nth_error].
    now rewrite forEach_from_third_line by lia.
Qed.

Lemma resources_of_all_ok (lines : list string) :
  (forall line, In line lines -> exists r, new_Resource rootPath line = Ok r) ->
  Forall2 (fun line r => new_Resource rootPath line = Ok r)
          lines (fst (resources_of rootPath lines))
  /\ snd (resources_of rootPath lines) = None.
Proof.
  induction lines as [|line rest IH]; intros Hall; simpl.
  - split; [constructor | reflexivity].
  - destruct (Hall line (or_introl eq_refl)) as [r Hr].
    rewrite Hr.
    destruct IH as [IH1 IH2]; [intros l Hl; apply Hall; now right|].
    destruct (resources_of rootPath rest) as [rs e]; simpl in *.
    split; [now constructor | assumption].
Qed.

End UpdateResources.

(** C8, as amended.  For a non-empty commit identifier, on a process that
    delivers its output and closes, [update] records the first line of the
    output as the new [sha], and publishes the records built, in order, from
    the non-empty lines from the third one onward, each given to the
    [Resource] constructor, up to the first line on which the constructor
    throws (whose exception escapes); the second line is never looked at.
    When the constructor succeeds on each of these lines, the published list
    has exactly one record per line. *)
Theorem update_records_sha_and_status_lines (rootPath : string)
    (git : list string -> list event) (this : Model) (c : ascii) (s : string)
    (chunks : list string) :
  delivers (git ["show"; "--format=%h"; "--name-status"; String c s]) chunks ->
  let output := text_of chunks in
  let o := update rootPath git this (Some (String c s)) in
  sha (model o) = nth_error (split_lines output) 0
  /\ nth_error (split_lines output) 0 <> None
  /\ resourceStates (model o) = fst (resources_of rootPath (status_lines output))
  /\ escaped o = optlist (snd (resources_of rootPath (status_lines output)))
  /\ returned o = Fulfilled tt
  /\ spawned o = [["show"; "--format=%h"; "--name-status"; String c s]]
  /\ ((forall line, In line (status_lines output) ->
         exists r, new_Resource rootPath line = Ok r) ->
      Forall2 (fun line r => new_Resource rootPath line = Ok r)
              (status_lines output) (resourceStates (model o))
      /\ escaped o = []).
Proof.
  intros Hgit output o.
  assert (Ho : o = mkOutcome
                     (mkModel (nth_error (split_lines output) 0)
                              (fst (resources_of rootPath (status_lines output))))
                     (Fulfilled tt)
                     [["show"; "--format=%h"; "--name-status"; String c s]]
                     (optlist (snd (resources_of rootPath (status_lines output))))).
  { subst o. unfold update, _updateResources, runGitCommand.
    rewrite (run_delivers _ _ _ _ Hgit).
    fold output. rewrite updateResources_end_spec. reflexivity. }
  rewrite Ho. cbn [model sha _sha resourceStates escaped returned spawned].
  repeat split.
  - pose proof (split_lines_from_not_nil output "") as Hne.
    fold (split_lines output) in Hne.
    destruct (split_lines output); [contradiction | discriminate].
  - now apply resources_of_all_ok.
  - apply resources_of_all_ok in H. now rewrite (proj2 H).
Qed.

(** C8 as stated fails when a status line is not recognized, such as the
    line git prints for a change of type: the constructor throws on it, the
    loop stops, and the lines after it are not in the published list. *)
Lemma update_stops_at_unparsable_line :
  let output := "abc1234" ++ LF ++ LF ++ "M" ++ TAB ++ "a.ts" ++ LF
                ++ "T" ++ TAB ++ "b.ts" ++ LF ++ "M" ++ TAB ++ "c.ts" ++ LF in
  let o := update "/repo" (fun _ => stream [output] ++ [ProcExit 0])%list
             (mkModel None []) (Some "abc1234") in
  status_lines output
  = ["M" ++ TAB ++ "a.ts"; "T" ++ TAB ++ "b.ts"; "M" ++ TAB ++ "c.ts"]
  /\ new_Resource "/repo" ("M" ++ TAB ++ "c.ts") = Ok (resource_at "/repo" "M" "c.ts")
  /\ resourceStates (model o) = [resource_at "/repo" "M" "a.ts"]
  /\ returned o = Fulfilled tt
  /\ escaped o = [Error ("Cannot parse " ++ ("T" ++ TAB ++ "b.ts"))].
Proof. repeat split; reflexivity. Qed.

Lemma update_records_sha_and_status_lines_witness :
  let output := "abc1234" ++ LF ++ LF ++ "M" ++ TAB ++ "src/foo.ts" ++ LF
                ++ "R100" ++ TAB ++ "old/name.ts" ++ TAB ++ "new/name.ts" ++ LF in
  let o := update "/repo" (fun _ => stream [output] ++ [ProcExit 0])%list
             (mkModel None []) (Some "HEAD") in
  sha (model o) = Some "abc1234"
  /\ resourceStates (model o) =
       [resource_at "/repo" "M" "src/foo.ts"; resource_at "/repo" "R100" "new/name.ts"].
Proof.
  intros output o.
  pose proof (update_records_sha_and_status_lines "/repo"
                (fun _ => stream [output] ++ [ProcExit 0])%list
                (mkModel None []) "H" "EAD"
                [output] eq_refl) as H.
  destruct H as (H1 & _ & H3 & _).
  split; [exact H1 | exact H3].
Defined.

(** *** The log tokenizer *)

(** A fragment that is one complete record pushes exactly its entry. *)
Lemma logEntries_entry_complete (fragment : string) (entry : LogEntry)
    (index : nat) (entries : list LogEntry) :
  complete_record fragment entry ->
  logEntries_entry fragment index entries = ((entries ++ [entry])%list, None).
Proof.
  intros (lead & s & h & r & a & e & d & Hsplit & ->).
  unfold logEntries_entry.
  destruct fragment as [|c fragment].
  - discriminate Hsplit.
  - cbn [truthy negb]. rewrite Hsplit. reflexivity.
Qed.

(** A fragment with fewer than six fields after the leading one pushes
    nothing and throws nothing. *)
Lemma logEntries_entry_short (fragment lead : string) (fields : list string)
    (index : nat) (entries : list LogEntry) :
  split itemSeparator fragment = lead :: fields ->
  (List.length fields < 6)%nat ->
  logEntries_entry fragment index entries = (entries, None).
Proof.
  intros Hsplit Hlen. unfold logEntries_entry.
  destruct (truthy fragment); [|reflexivity].
  cbn [negb]. rewrite Hsplit.
  destruct fields as [|f1 [|f2 [|f3 [|f4 [|f5 [|f6 fields]]]]]];
    try reflexivity.
  simpl in Hlen. lia.
Qed.

Lemma forEach_empty_fragments (n index : nat) (entries : list LogEntry) :
  forEach logEntries_entry (repeat "" n) index entries = (entries, None).
Proof.
  revert index. induction n as [|n IH]; intros index; simpl.
  - reflexivity.
  - apply IH.
Qed.

Lemma forEach_complete_records (fragments : list string) (records : list LogEntry)
    (n index : nat) (entries : list LogEntry) :
  Forall2 complete_record fragments records ->
  forEach logEntries_entry (fragments ++ repeat "" n) index entries
  = ((entries ++ records)%list, None).
Proof.
  intros Hall. revert index entries.
  induction Hall as [|fragment entry fragments records Hc _ IH];
    intros index entries.
  - simpl. rewrite forEach_empty_fragments. now rewrite app_nil_r.
  - simpl. rewrite (logEntries_entry_complete _ _ _ _ Hc).
    rewrite IH. now rewrite <- app_assoc.
Qed.

(** C6.  When the output, cut at the entry separator, is K fragments
    followed by empty ones, and each of the K fragments, cut at the item
    separator, is a leading field and six fields, [getLogEntries] is
    fulfilled with K entries: the entries of the fragments, each with its six
    fields, in the order of the output; nothing is thrown. *)
Theorem getLogEntries_complete_records (git : list string -> list event)
    (this : Model) (start count : Z) (chunks : list string)
    (fragments : list string) (records : list LogEntry) (n : nat) :
  delivers (git ["log"; format; "--skip=" ++ string_of_Z start;
                 "--max-count=" ++ string_of_Z count]) chunks ->
  split entrySeparator (text_of chunks) = (fragments ++ repeat "" n)%list ->
  Forall2 complete_record fragments records ->
  let o := getLogEntries git this start count in
  returned o = Fulfilled records
  /\ List.length records = List.length fragments
  /\ escaped o = [] /\ model o = this.
Proof.
  intros Hgit Hsplit Hall o. subst o.
  unfold getLogEntries, runGitCommand. rewrite (run_delivers _ _ _ _ Hgit).
  cbn [settled uncaught returned escaped model].
  unfold logEntries_end. rewrite Hsplit.
  rewrite (forEach_complete_records fragments records n 0 [] Hall).
  cbn [fst snd optlist app].
  repeat split. symmetry. exact (Forall2_length Hall).
Qed.

(** The tokenizer has no statement that throws. *)
Lemma logEntries_item_no_throw (value : string) (index : nat)
    (s : LogEntry * list LogEntry) :
  snd (logEntries_item value index s) = None.
Proof.
  unfold logEntries_item. destruct s as [v entries].
  destruct (index =? 0)%nat; [reflexivity|].
  destruct ((index - 1) mod 6)%nat as [|[|[|[|[|[|k]]]]]]; reflexivity.
Qed.

Lemma forEach_no_throw {A St : Type} (body : A -> nat -> St -> St * option exn)
    (xs : list A) (index : nat) (s : St) :
  (forall value i s', snd (body value i s') = None) ->
  snd (forEach body xs index s) = None.
Proof.
  intros Hbody. revert index s.
  induction xs as [|x xs IH]; intros index s; simpl.
  - reflexivity.
  - pose proof (Hbody x index s) as Hx.
    destruct (body x index s) as [s' [e|]]; simpl in Hx; [discriminate Hx|].
    apply IH.
Qed.

Lemma logEntries_entry_no_throw (entry : string) (index : nat)
    (entries : list LogEntry) :
  snd (logEntries_entry entry index entries) = None.
Proof.
  unfold logEntries_entry. destruct (negb (truthy entry)); [reflexivity|].
  pose proof (forEach_no_throw logEntries_item (split itemSeparator entry) 0
                (undefined_locals, entries) logEntries_item_no_throw) as H.
  destruct (forEach logEntries_item (split itemSeparator entry) 0
              (undefined_locals, entries)) as [[v es] thrown].
  exact H.
Qed.

(** The outer loop does not look at the index. *)
Lemma forEach_entry_index (fragments : list string) (i j : nat)
    (entries : list LogEntry) :
  forEach logEntries_entry fragments i entries
  = forEach logEntries_entry fragments j entries.
Proof.
  revert i j entries.
  induction fragments as [|fragment fragments IH]; intros i j entries; simpl.
  - reflexivity.
  - unfold logEntries_entry at 1 3.
    destruct (negb (truthy fragment)).
    + apply IH.
    + destruct (forEach logEntries_item (split itemSeparator fragment) 0
                  (undefined_locals, entries)) as [[v es] [e|]];
        [reflexivity | apply IH].
Qed.

Lemma forEach_skips_short (before after : list string) (fragment lead : string)
    (fields : list string) (index : nat) (entries : list LogEntry) :
  split itemSeparator fragment = lead :: fields ->
  (List.length fields < 6)%nat ->
  forEach logEntries_entry (before ++ fragment :: after) index entries
  = forEach logEntries_entry (before ++ after) index entries.
Proof.
  intros Hsplit Hlen. revert index entries.
  induction before as [|b before IH]; intros index entries; simpl.
  - rewrite (logEntries_entry_short _ _ _ _ _ Hsplit Hlen).
    apply forEach_entry_index.
  - destruct (logEntries_entry b index entries) as [es [e|]];
      [reflexivity | apply IH].
Qed.

(** The output that [git log] prints with [format].  Each record whose
    rendering is unambiguous is a complete record for the tokenizer. *)
Lemma itemSeparator_not_empty : itemSeparator <> "".
Proof. discriminate. Qed.

Lemma entrySeparator_not_empty : entrySeparator <> "".
Proof. discriminate. Qed.

Lemma rendered_fragment_complete (x : LogRecord) :
  unambiguous x = true ->
  complete_record (rendered_fragment x) (entry_of x).
Proof.
  unfold unambiguous. intros H.
  repeat (apply andb_prop in H; destruct H as [H ?]).
  exists (lead x), (r_subject x), (r_hash x), (r_ref x), (r_author x),
    (r_email x), (r_date x).
  split; [|reflexivity].
  unfold split, rendered_fragment.
  repeat (rewrite (split_from_piece itemSeparator itemSeparator_not_empty)
            by assumption; cbn [append]; f_equal).
  now apply split_from_last.
Qed.

Lemma split_rendered (xs : list LogRecord) (trailer : string) :
  Forall (fun x => unambiguous x = true) xs ->
  starts_nowhere entrySeparator trailer "" = true ->
  split entrySeparator (rendered xs trailer)
  = (map rendered_fragment xs ++ [trailer])%list.
Proof.
  intros Hall Ht. unfold split.
  induction Hall as [|x xs Hx _ IH]; cbn [rendered fold_right map app].
  - now apply split_from_last.
  - fold (rendered xs trailer).
    rewrite (split_from_piece entrySeparator entrySeparator_not_empty).
    + cbn [append]. now rewrite IH.
    + unfold unambiguous in Hx.
      repeat (apply andb_prop in Hx; destruct Hx as [Hx ?]). exact Hx.
Qed.

(** X13.  Tokenizing undoes [format].  On the output that [git log] prints
    with [format] for the records [xs], in which the separators occur where
    [format] puts them and nowhere else, whatever follows the last entry
    separator (nothing, or a line feed), [getLogEntries] is fulfilled with
    the entries of [xs], in order. *)
Lemma getLogEntries_rendered (git : list string -> list event)
    (this : Model) (start count : Z) (chunks : list string)
    (xs : list LogRecord) (trailer : string) :
  delivers (git ["log"; format; "--skip=" ++ string_of_Z start;
                 "--max-count=" ++ string_of_Z count]) chunks ->
  text_of chunks = rendered xs trailer ->
  Forall (fun x => unambiguous x = true) xs ->
  starts_nowhere entrySeparator trailer "" = true ->
  starts_nowhere itemSeparator trailer "" = true ->
  let o := getLogEntries git this start count in
  returned o = Fulfilled (map entry_of xs) /\ escaped o = [].
Proof.
  intros Hgit Htext Hall Hte Hti o. subst o.
  unfold getLogEntries, runGitCommand. rewrite (run_delivers _ _ _ _ Hgit).
  cbn [settled uncaught returned escaped].
  unfold logEntries_end. rewrite Htext, (split_rendered xs trailer Hall Hte).
  assert (Hshort : split itemSeparator trailer = [trailer])
    by (unfold split; now apply split_from_last).
  rewrite (forEach_skips_short (map rendered_fragment xs) [] trailer trailer []
             0 [] Hshort) by (simpl; lia).
  assert (Hrec : Forall2 complete_record (map rendered_fragment xs) (map entry_of xs)).
  { clear -Hall. induction Hall as [|x xs Hx _ IH]; simpl; constructor.
    - now apply rendered_fragment_complete.
    - exact IH. }
  pose proof (forEach_complete_records _ _ 0 0 [] Hrec) as Hrun.
  cbn [repeat] in Hrun. rewrite Hrun.
  split; reflexivity.
Qed.

(** C9.  A fragment, empty or not, that has fewer than six fields after the
    leading one adds no entry and raises no error, whatever was pushed before
    it; the entries [getLogEntries] is fulfilled with are those of the other
    fragments of the output, and nothing is thrown. *)
Theorem getLogEntries_drops_short_fragment (git : list string -> list event)
    (this : Model) (start count : Z) (chunks : list string)
    (before after : list string) (fragment lead : string)
    (fields : list string) :
  delivers (git ["log"; format; "--skip=" ++ string_of_Z start;
                 "--max-count=" ++ string_of_Z count]) chunks ->
  split entrySeparator (text_of chunks) = (before ++ fragment :: after)%list ->
  split itemSeparator fragment = lead :: fields ->
  (List.length fields < 6)%nat ->
  (forall index entries,
     logEntries_entry fragment index entries = (entries, None))
  /\ (let o := getLogEntries git this start count in
      returned o = Fulfilled (fst (forEach logEntries_entry (before ++ after) 0 []))
      /\ escaped o = []).
Proof.
  intros Hgit Hcut Hsplit Hlen. split.
  - intros index entries. exact (logEntries_entry_short _ _ _ _ _ Hsplit Hlen).
  - unfold getLogEntries, runGitCommand. rewrite (run_delivers _ _ _ _ Hgit).
    cbn [settled uncaught returned escaped].
    unfold logEntries_end. rewrite Hcut.
    rewrite (forEach_skips_short before after fragment lead fields 0 [] Hsplit Hlen).
    rewrite (forEach_no_throw logEntries_entry (before ++ after) 0 []
               logEntries_entry_no_throw).
    split; reflexivity.
Qed.

Lemma getLogEntries_drops_short_fragment_witness :
  let record := itemSeparator ++ "Fix the parser" ++ itemSeparator ++ "abc1234"
                ++ itemSeparator ++ " (HEAD -> master)" ++ itemSeparator ++ "Ann"
                ++ itemSeparator ++ "ann@example.com" ++ itemSeparator
                ++ "2 days ago" in
  let cut := LF ++ itemSeparator ++ "Initial commit" ++ itemSeparator ++ "0123abc"
             ++ itemSeparator ++ " (tag: v0.1)" in
  let o := getLogEntries
             (fun _ => [StdoutData (record ++ entrySeparator ++ cut); ProcExit 0;
                        StdoutEnd; StdoutClose])
             (mkModel None []) 0 20 in
  split itemSeparator cut = [LF; "Initial commit"; "0123abc"; " (tag: v0.1)"]
  /\ logEntries_entry cut 1 [] = ([], None)
  /\ returned o = Fulfilled [mkLogEntry (Some "Fix the parser") (Some "abc1234")
                               (Some " (HEAD -> master)") (Some "Ann")
                               (Some "ann@example.com") (Some "2 days ago")]
  /\ escaped o = [].
Proof.
  intros record cut o.
  assert (Hlen : (List.length ["Initial commit"; "0123abc"; " (tag: v0.1)"] < 6)%nat)
    by (simpl; lia).
  pose proof (getLogEntries_drops_short_fragment
                (fun _ => [StdoutData (record ++ entrySeparator ++ cut); ProcExit 0;
                           StdoutEnd; StdoutClose])
                (mkModel None []) 0 20 [record ++ entrySeparator ++ cut]
                [record] [] cut LF ["Initial commit"; "0123abc"; " (tag: v0.1)"]
                eq_refl eq_refl eq_refl Hlen) as [H1 [H2 H3]].
  split; [reflexivity|].
  split; [exact (H1 1%nat []) | split; [exact H2 | exact H3]].
Defined.

Lemma getLogEntries_complete_records_witness :
  let first := itemSeparator ++ "Fix the parser" ++ itemSeparator ++ "abc1234"
               ++ itemSeparator ++ " (HEAD -> master)" ++ itemSeparator ++ "Ann"
               ++ itemSeparator ++ "ann@example.com" ++ itemSeparator
               ++ "2 days ago" in
  let second := itemSeparator ++ "Initial commit" ++ itemSeparator ++ "0123abc"
                ++ itemSeparator ++ "" ++ itemSeparator ++ "Bob"
                ++ itemSeparator ++ "bob@example.com" ++ itemSeparator
                ++ "3 weeks ago" in
  let o := getLogEntries
             (fun _ => stream [first ++ entrySeparator; second ++ entrySeparator])
             (mkModel None []) 0 20 in
  returned o = Fulfilled
                 [mkLogEntry (Some "Fix the parser") (Some "abc1234")
                    (Some " (HEAD -> master)") (Some "Ann")
                    (Some "ann@example.com") (Some "2 days ago");
                  mkLogEntry (Some "Initial commit") (Some "0123abc") (Some "")
                    (Some "Bob") (Some "bob@example.com") (Some "3 weeks ago")].
Proof.
  intros first second o.
  refine (proj1 (getLogEntries_complete_records
                   (fun _ => stream [first ++ entrySeparator; second ++ entrySeparator])
                   (mkModel None []) 0 20
                   [first ++ entrySeparator; second ++ entrySeparator]
                   [first; second] _ 1 eq_refl eq_refl _)).
  constructor; [|constructor; [|constructor]].
  - exists "", "Fix the parser", "abc1234", " (HEAD -> master)", "Ann",
      "ann@example.com", "2 days ago". split; reflexivity.
  - exists "", "Initial commit", "0123abc", "", "Bob",
      "bob@example.com", "3 weeks ago". split; reflexivity.
Defined.

(** *** Examples *)

Example split_tab_ex :
  split TAB ("R100" ++ TAB ++ "old" ++ TAB ++ "new") = ["R100"; "old"; "new"].
Proof. reflexivity. Qed.

Example split_trailing_ex : split "--" "a--b--" = ["a"; "b"; ""].
Proof. reflexivity. Qed.

Example split_lines_ex :
  split_lines ("abc" ++ CR ++ LF ++ LF ++ "M" ++ CR ++ "x" ++ LF)
  = ["abc"; ""; "M" ++ CR ++ "x"; ""].
Proof. reflexivity. Qed.

Example parseInt_ex :
  parseInt ("42" ++ LF) = Int 42 /\ parseInt "" = NaN
  /\ parseInt "-0x1f" = Int (-31) /\ parseInt " 12ab" = Int 12
  /\ parseInt "abc" = NaN.
Proof. repeat split; reflexivity. Qed.

(** The examples of the specification: a modified and a deleted file. *)
Example decorations_modified :
  bind (new_Resource "/repo" ("M" ++ TAB ++ "src/foo.ts"))
       (fun r => bind (decorations "/icons" r)
                      (fun d => Ok (file r, strikeThrough d, faded d)))
  = Ok (Some "src/foo.ts", false, false).
Proof. reflexivity. Qed.

Example decorations_deleted :
  bind (new_Resource "/repo" ("D" ++ TAB ++ "src/old.ts"))
       (fun r => bind (decorations "/icons" r)
                      (fun d => Ok (file r, strikeThrough d, faded d)))
  = Ok (Some "src/old.ts", true, true).
Proof. reflexivity. Qed.

(** The output of [git log] for two commits: the line feed that ends a
    record is the leading field of the next one, and the last line feed is a
    fragment without fields. *)
Lemma getLogEntries_rendered_witness :
  let first := mkLogRecord "" "Fix the parser" "abc1234" " (HEAD -> master)"
                 "Ann" "ann@example.com" "2 days ago" in
  let second := mkLogRecord LF "Initial commit" "0123abc" "" "Bob"
                  "bob@example.com" "3 weeks ago" in
  let o := getLogEntries
             (fun _ => [StdoutData (rendered [first; second] LF); ProcExit 0;
                        StdoutEnd; StdoutClose])
             (mkModel None []) 0 20 in
  returned o = Fulfilled [entry_of first; entry_of second] /\ escaped o = [].
Proof.
  intros first second o.
  apply (getLogEntries_rendered _ _ _ _ [rendered [first; second] LF]
           [first; second] LF); try reflexivity.
  repeat constructor.
Defined.

(** A line with fewer than two fields never makes the constructor fail. *)
Example new_Resource_no_tab (rootPath : string) :
  new_Resource rootPath "M src/foo.ts" = Ok unassigned.
Proof. apply new_Resource_short_line. simpl. lia. Qed.

(* ================================================================== *)
(** ** Further properties of the module *)
(* ================================================================== *)

(** *** The records the constructor can produce *)

Lemma split_from_not_nil (sep s cur : string) (skip : nat) :
  split_from sep skip cur s <> [].
Proof.
  revert skip cur. induction s as [|c s IH]; intros skip cur; cbn [split_from].
  - discriminate.
  - destruct skip; [destruct (prefix sep (String c s)); [discriminate|]|]; apply IH.
Qed.

Lemma TAB_not_empty : TAB <> "".
Proof. discriminate. Qed.

(** The tab is one code unit: whether it starts somewhere in a text does not
    depend on what follows the text. *)
Lemma no_tab_followed (s after : string) :
  starts_nowhere TAB s "" = true -> starts_nowhere TAB s after = true.
Proof.
  intros H. rewrite <- (starts_nowhere_local TAB s "" after) in H.
  - exact H.
  - simpl. lia.
Qed.

(** When the constructor succeeds on a line of two fields or more, it has
    assigned the three fields of the record. *)
Lemma new_Resource_ok_long (rootPath info : string) (r : Resource) :
  new_Resource rootPath info = Ok r ->
  (2 <= List.length (split TAB info))%nat ->
  assigned_from rootPath info r.
Proof.
  intros Hok Hlen.
  destruct (split TAB info) as [|code [|second rest]] eqn:Hsplit;
    simpl in Hlen; try lia.
  destruct code as [|c tail].
  - unfold new_Resource, parseInfoLine in Hok. rewrite Hsplit in Hok.
    discriminate Hok.
  - rewrite (new_Resource_by_branch rootPath info c tail second rest Hsplit) in Hok.
    unfold assigned_from. rewrite Hsplit.
    destruct (Ascii.eqb (toUpperCase1 c) "M" || Ascii.eqb (toUpperCase1 c) "A"
              || Ascii.eqb (toUpperCase1 c) "D") eqn:E.
    + injection Hok as <-. exists c, tail, second.
      split; [reflexivity|]. split; [reflexivity|].
      split; [apply in_or_app; left; now apply upper_plain | now left].
    + destruct (Ascii.eqb (toUpperCase1 c) "R" || Ascii.eqb (toUpperCase1 c) "C") eqn:F;
        [|discriminate Hok].
      destruct rest as [|third rest']; [discriminate Hok|].
      injection Hok as <-. exists c, tail, third.
      split; [reflexivity|]. split; [reflexivity|].
      split; [apply in_or_app; right; now apply upper_rename_copy
             | right; now left].
Qed.

(** X1.  Whatever the line, a record the constructor returns is of one of
    two kinds: on a line of fewer than two fields nothing is assigned; on a
    longer line the status is the first field and starts with one of the
    codes, the file is one of the other fields, and the URI is that of the
    file in the workspace.  No record is assigned in part. *)
Theorem new_Resource_unassigned_or_assigned (rootPath info : string) (r : Resource) :
  new_Resource rootPath info = Ok r ->
  ((List.length (split TAB info) < 2)%nat /\ r = unassigned)
  \/ ((2 <= List.length (split TAB info))%nat /\ assigned_from rootPath info r).
Proof.
  intros Hok.
  destruct (Nat.lt_ge_cases (List.length (split TAB info)) 2) as [Hlt|Hge].
  - left. split; [exact Hlt|].
    rewrite (new_Resource_short_line rootPath info Hlt) in Hok.
    now injection Hok.
  - right. split; [exact Hge|]. now apply new_Resource_ok_long.
Qed.

Lemma new_Resource_unassigned_or_assigned_witness :
  ((List.length (split TAB ("A" ++ TAB ++ "src/new.ts")) < 2)%nat
   /\ resource_at "/repo" "A" "src/new.ts" = unassigned)
  \/ ((2 <= List.length (split TAB ("A" ++ TAB ++ "src/new.ts")))%nat
      /\ assigned_from "/repo" ("A" ++ TAB ++ "src/new.ts")
           (resource_at "/repo" "A" "src/new.ts")).
Proof.
  exact (new_Resource_unassigned_or_assigned "/repo" ("A" ++ TAB ++ "src/new.ts")
           (resource_at "/repo" "A" "src/new.ts") eq_refl).
Defined.

Lemma toUpperCase_is_D (s : string) :
  String.eqb (toUpperCase s) "D" = true <-> s = "D" \/ s = "d".
Proof.
  destruct s as [|c [|c' s]].
  - simpl. split; [discriminate | intros [H|H]; discriminate H].
  - destruct c as [[] [] [] [] [] [] [] []]; vm_compute;
      (split; [ intros H; first [discriminate H | tauto]
              | intros [H|H]; first [reflexivity | discriminate H] ]).
  - split.
    + intros H. apply String.eqb_eq in H. simpl in H. discriminate H.
    + intros [H|H]; discriminate H.
Qed.

Lemma decorations_resource_at (rootPath iconsRootPath : string) (c : ascii)
    (tail path : string) :
  In c (plain_codes ++ rename_copy_codes) ->
  exists l d,
    decorations iconsRootPath (resource_at rootPath (String c tail) path)
    = Ok {| strikeThrough := String.eqb (toUpperCase (String c tail)) "D";
            faded := String.eqb (toUpperCase (String c tail)) "D";
            light := Some l; dark := Some d |}.
Proof.
  unfold plain_codes, rename_copy_codes. simpl.
  intros H.
  repeat (destruct H as [H|H]; [subst c; eexists; eexists; reflexivity|]).
  contradiction.
Qed.

(** X2.  The decorations of every record the constructor returns for a line
    of two fields or more can be computed: [strikeThrough] and [faded] are
    equal, they are set exactly when the status is the single letter D (in
    either case), and there is an icon for the light and for the dark
    theme. *)
Theorem decorations_of_constructed (rootPath iconsRootPath info : string)
    (r : Resource) :
  new_Resource rootPath info = Ok r ->
  (2 <= List.length (split TAB info))%nat ->
  exists d,
    decorations iconsRootPath r = Ok d
    /\ strikeThrough d = faded d
    /\ (strikeThrough d = true <-> _status r = Some "D" \/ _status r = Some "d")
    /\ light d <> None /\ dark d <> None.
Proof.
  intros Hok Hlen.
  destruct (new_Resource_ok_long rootPath info r Hok Hlen)
    as (c & tail & path & -> & _ & Hc & _).
  destruct (decorations_resource_at rootPath iconsRootPath c tail path Hc)
    as (l & d & Hd).
  eexists. split; [exact Hd|]. cbn [strikeThrough faded light dark resource_at _status].
  repeat split; try discriminate.
  - intros H. apply toUpperCase_is_D in H. destruct H as [H|H]; rewrite H; auto.
  - intros [H|H]; apply toUpperCase_is_D; [left|right]; congruence.
Qed.

Lemma decorations_of_constructed_witness :
  exists d,
    decorations "/icons" (resource_at "/repo" "D" "src/old.ts") = Ok d
    /\ strikeThrough d = faded d
    /\ (strikeThrough d = true <->
        _status (resource_at "/repo" "D" "src/old.ts") = Some "D"
        \/ _status (resource_at "/repo" "D" "src/old.ts") = Some "d")
    /\ light d <> None /\ dark d <> None.
Proof.
  refine (decorations_of_constructed "/repo" "/icons" ("D" ++ TAB ++ "src/old.ts")
            (resource_at "/repo" "D" "src/old.ts") eq_refl _).
  simpl. lia.
Defined.

(** X3.  A line that starts with a tab has an empty first field: the
    constructor throws a [TypeError] on it, whatever follows the tab, and not
    the "Cannot parse" error. *)
Theorem new_Resource_leading_tab (rootPath rest : string) :
  new_Resource rootPath (TAB ++ rest) = Throw TypeError.
Proof.
  unfold new_Resource, parseInfoLine, split.
  rewrite (split_from_separator TAB TAB_not_empty).
  pose proof (split_from_not_nil TAB rest "" 0) as Hne.
  destruct (split_from TAB 0 "" rest) as [|second fields]; [contradiction|].
  reflexivity.
Qed.

(** X4.  Parsing undoes the layout of a status line.  For a status that
    starts with M, A or D and a path, neither containing a tab, the line
    made of the status, a tab and the path gives the record of that status
    and path.  For a status that starts with R or C and two paths, the line
    made of the three gives the record of the status and the second path. *)
Theorem new_Resource_of_fields (rootPath : string) (c : ascii)
    (tail old path : string) :
  starts_nowhere TAB (String c tail) "" = true ->
  starts_nowhere TAB old "" = true ->
  starts_nowhere TAB path "" = true ->
  (In c plain_codes ->
     new_Resource rootPath (String c tail ++ TAB ++ path)
     = Ok (resource_at rootPath (String c tail) path))
  /\ (In c rename_copy_codes ->
      new_Resource rootPath (String c tail ++ TAB ++ old ++ TAB ++ path)
      = Ok (resource_at rootPath (String c tail) path)).
Proof.
  intros Hcode Hold Hpath. split; intros Hc.
  - assert (Hsplit : split TAB (String c tail ++ TAB ++ path) = [String c tail; path]).
    { unfold split.
      rewrite (split_from_piece TAB TAB_not_empty) by now apply no_tab_followed.
      cbn [append]. f_equal. now apply split_from_last. }
    rewrite (new_Resource_by_branch rootPath _ c tail path [] Hsplit).
    apply upper_plain in Hc. now rewrite Hc.
  - assert (Hsplit : split TAB (String c tail ++ TAB ++ old ++ TAB ++ path)
                     = [String c tail; old; path]).
    { unfold split.
      rewrite (split_from_piece TAB TAB_not_empty) by now apply no_tab_followed.
      cbn [append]. f_equal.
      rewrite (split_from_piece TAB TAB_not_empty) by now apply no_tab_followed.
      cbn [append]. f_equal. now apply split_from_last. }
    rewrite (new_Resource_by_branch rootPath _ c tail old [path] Hsplit).
    assert (Hn : ~ In c plain_codes)
      by (intros K; exact (plain_not_rename_copy c K Hc)).
    destruct (Ascii.eqb (toUpperCase1 c) "M" || Ascii.eqb (toUpperCase1 c) "A"
              || Ascii.eqb (toUpperCase1 c) "D") eqn:E.
    + exfalso. apply Hn. now apply upper_plain.
    + apply upper_rename_copy in Hc. now rewrite Hc.
Qed.

Lemma new_Resource_of_fields_witness :
  new_Resource "/repo" ("c075" ++ TAB ++ "lib/a b.ts" ++ TAB ++ "lib/copy of a.ts")
  = Ok (resource_at "/repo" "c075" "lib/copy of a.ts").
Proof.
  refine (proj2 (new_Resource_of_fields "/repo" "c" "075" "lib/a b.ts"
                   "lib/copy of a.ts" eq_refl eq_refl eq_refl) _).
  unfold rename_copy_codes. simpl. tauto.
Defined.

(** *** The promise and the buffer of [runGitCommand] *)

Section RunGitCommandMore.

Context {St : Type}.
Variable endAction : string -> St -> St * option exn.

Lemma pending_iff_nothing_settles (trace : list event) (r : run St) :
  settled r = Pending ->
  (settled (fold_left (on_event endAction) trace r) = Pending
   <-> forallb (fun ev => negb (settling ev)) trace = true).
Proof.
  revert r. induction trace as [|ev trace IH]; intros r Hr; simpl.
  - tauto.
  - pose proof (settled_on_event endAction r ev) as Hev.
    destruct (settling ev) eqn:Hs; simpl.
    + assert (Hne : settled (on_event endAction r ev) <> Pending).
      { rewrite Hev. destruct ev; try discriminate Hs; rewrite Hr; simpl; discriminate. }
      rewrite (settled_stable endAction trace _ Hne).
      split; [intros H; contradiction | discriminate].
    + apply IH. rewrite Hev. destruct ev; try discriminate Hs; exact Hr.
Qed.

Lemma fulfilled_iff_closes_first (trace : list event) (r : run St) (s : St) :
  settled r = Pending ->
  (settled (fold_left (on_event endAction) trace r) = Fulfilled s
   <-> exists pre post,
         trace = (pre ++ StdoutClose :: post)%list
         /\ forallb (fun ev => negb (settling ev)) pre = true
         /\ s = state (fold_left (on_event endAction) pre r)).
Proof.
  revert r. induction trace as [|ev trace IH]; intros r Hr; simpl.
  - split.
    + intros H. congruence.
    + intros (pre & post & H & _). destruct pre; discriminate H.
  - pose proof (settled_on_event endAction r ev) as Hev.
    destruct (settling ev) eqn:Hs.
    + assert (Hne : settled (on_event endAction r ev) <> Pending).
      { rewrite Hev. destruct ev; try discriminate Hs; rewrite Hr; simpl; discriminate. }
      rewrite (settled_stable endAction trace _ Hne), Hev.
      split.
      * intros H. destruct ev; try discriminate Hs; rewrite Hr in H; simpl in H.
        -- discriminate H.
        -- injection H as <-. now exists [], trace.
      * intros (pre & post & H & Hpre & Hstate).
        destruct pre as [|ev' pre]; simpl in H.
        -- injection H as -> _. rewrite Hr. simpl. now subst s.
        -- injection H as -> _. simpl in Hpre. rewrite Hs in Hpre. discriminate Hpre.
    + assert (Hp : settled (on_event endAction r ev) = Pending).
      { rewrite Hev. destruct ev; try discriminate Hs; exact Hr. }
      rewrite (IH _ Hp).
      split.
      * intros (pre & post & -> & Hpre & Hstate).
        exists (ev :: pre), post. split; [reflexivity|].
        simpl. now rewrite Hs.
      * intros (pre & post & H & Hpre & Hstate).
        destruct pre as [|ev' pre]; simpl in H.
        -- injection H as -> _. discriminate Hs.
        -- injection H as -> ->. exists pre, post. split; [reflexivity|].
           simpl in Hpre. apply andb_prop in Hpre. now split.
Qed.

Lemma content_of_run (trace : list event) (r : run St) :
  content (fold_left (on_event endAction) trace r)
  = content r ++ text_of (data_of trace).
Proof.
  revert r. induction trace as [|ev trace IH]; intros r; simpl.
  - now rewrite append_nil_r.
  - rewrite IH. destruct ev; simpl; try reflexivity.
    + now rewrite append_assoc.
    + now destruct (endAction (content r) (state r)).
Qed.

(** Only an ['end'] event changes the state of the end action. *)
Lemma state_without_end (trace : list event) (r : run St) :
  forallb (fun ev => negb (is_end ev)) trace = true ->
  state (fold_left (on_event endAction) trace r) = state r.
Proof.
  revert r. induction trace as [|ev trace IH]; intros r H; simpl in *.
  - reflexivity.
  - apply andb_prop in H. destruct H as [Hev H].
    rewrite (IH _ H). destruct ev; try reflexivity. discriminate Hev.
Qed.

End RunGitCommandMore.

(** X5.  The promise of [runGitCommand] stays pending exactly when the
    standard output neither closes nor emits an error: nothing else settles
    it, and nothing times it out.  It is fulfilled exactly when the stream
    closes before it emits an error, and what the caller then sees is the
    state the end action had left at that moment. *)
Theorem runGitCommand_pending_or_closed {St : Type}
    (git : list string -> list event) (args : list string)
    (endAction : string -> St -> St * option exn) (s : St) :
  (settled (runGitCommand git args endAction s) = Pending
   <-> forallb (fun ev => negb (settling ev)) (git args) = true)
  /\ (forall s',
        settled (runGitCommand git args endAction s) = Fulfilled s'
        <-> exists pre post,
              git args = (pre ++ StdoutClose :: post)%list
              /\ forallb (fun ev => negb (settling ev)) pre = true
              /\ s' = state (runGitCommand (fun _ => pre) args endAction s)).
Proof.
  unfold runGitCommand. split.
  - now apply pending_iff_nothing_settles.
  - intros s'. now apply fulfilled_iff_closes_first.
Qed.

(** X6.  The text buffered by [runGitCommand] is the chunks of the ['data']
    events, in the order of their arrival, whatever other events come in
    between.  When the stream ends once, the end action is given the chunks
    that arrived before the end, and chunks arriving later do not reach it;
    when the stream never ends, the end action does not run. *)
Theorem runGitCommand_buffers_in_order {St : Type}
    (git : list string -> list event) (args : list string)
    (endAction : string -> St -> St * option exn) (s : St) :
  content (runGitCommand git args endAction s) = text_of (data_of (git args))
  /\ (forall pre post,
        git args = (pre ++ StdoutEnd :: post)%list ->
        forallb (fun ev => negb (is_end ev)) pre = true ->
        forallb (fun ev => negb (is_end ev)) post = true ->
        state (runGitCommand git args endAction s)
        = fst (endAction (text_of (data_of pre)) s))
  /\ (forallb (fun ev => negb (is_end ev)) (git args) = true ->
      state (runGitCommand git args endAction s) = s).
Proof.
  unfold runGitCommand. split; [|split].
  - now rewrite content_of_run.
  - intros pre post Htrace Hpre Hpost. rewrite Htrace.
    rewrite fold_left_app. cbn [fold_left].
    rewrite (state_without_end endAction post _ Hpost).
    cbn [on_event].
    rewrite content_of_run, (state_without_end endAction pre _ Hpre).
    cbn [content state append].
    now destruct (endAction (text_of (data_of pre)) s).
  - intros H. now rewrite state_without_end.
Qed.

Lemma runGitCommand_buffers_in_order_witness :
  let git := fun _ : list string =>
               [StdoutData "ma"; ProcExit 0; StdoutData "ster"; StdoutEnd;
                StdoutData "late"; StdoutClose] in
  let r := runGitCommand git ["rev-parse"; "--abbrev-ref"; "HEAD"]
             (fun content (_ : string) => (content, None)) "" in
  content r = "masterlate" /\ state r = "master".
Proof.
  intros git r.
  pose proof (runGitCommand_buffers_in_order git
                ["rev-parse"; "--abbrev-ref"; "HEAD"]
                (fun content (_ : string) => (content, None)) "") as [H1 [H2 _]].
  split; [exact H1|].
  exact (H2 [StdoutData "ma"; ProcExit 0; StdoutData "ster"]
            [StdoutData "late"; StdoutClose] eq_refl eq_refl eq_refl).
Defined.

(** *** What [update] leaves untouched *)

Section UpdateKeeps.

Variable rootPath : string.

Lemma updateResources_line_keeps_list (value : string) (index : nat)
    (s : Model * list Resource) :
  resourceStates (fst (fst (updateResources_line rootPath value index s)))
  = resourceStates (fst s).
Proof.
  destruct s as [this resources]. unfold updateResources_line.
  destruct (index =? 0)%nat;
    destruct ((1 <? index)%nat && truthy value);
    try destruct (new_Resource rootPath value); reflexivity.
Qed.

Lemma forEach_lines_keeps_list (lines : list string) (index : nat)
    (s : Model * list Resource) :
  resourceStates (fst (fst (forEach (updateResources_line rootPath) lines index s)))
  = resourceStates (fst s).
Proof.
  revert index s. induction lines as [|value rest IH]; intros index s; simpl.
  - reflexivity.
  - pose proof (updateResources_line_keeps_list value index s) as Hline.
    destruct (updateResources_line rootPath value index s) as [s' [e|]];
      simpl in Hline.
    + exact Hline.
    + now rewrite IH.
Qed.

Lemma run_keeps_list (trace : list event) (r : run (Model * list Resource)) :
  resourceStates
    (fst (state (fold_left (on_event (updateResources_end rootPath)) trace r)))
  = resourceStates (fst (state r)).
Proof.
  revert r. induction trace as [|ev trace IH]; intros r; simpl.
  - reflexivity.
  - rewrite IH. destruct ev; try reflexivity.
    simpl. pose proof (forEach_lines_keeps_list (split_lines (content r)) 0 (state r)) as H.
    unfold updateResources_end.
    destruct (forEach (updateResources_line rootPath) (split_lines (content r)) 0
                (state r)) as [s' thrown].
    exact H.
Qed.

End UpdateKeeps.

(** X7.  The published list changes only when [update] is fulfilled: when
    the promise is rejected, or never settles, the list is the one published
    before, whatever the process has printed. *)
Theorem update_keeps_list_unless_fulfilled (rootPath : string)
    (git : list string -> list event) (this : Model) (sha : option string) :
  returned (update rootPath git this sha) <> Fulfilled tt ->
  resourceStates (model (update rootPath git this sha)) = resourceStates this.
Proof.
  destruct sha as [[|c s]|]; simpl; try (intros H; now elim H).
  unfold _updateResources, runGitCommand. cbn [returned model spawned escaped].
  pose proof (run_keeps_list rootPath
                (git ["show"; "--format=%h"; "--name-status"; String c s])
                (mkRun "" (this, []) Pending [])) as Hkeep.
  destruct (settled (fold_left (on_event (updateResources_end rootPath))
                       (git ["show"; "--format=%h"; "--name-status"; String c s])
                       (mkRun "" (this, []) Pending []))) as [|a|e];
    simpl; intros H.
  - exact Hkeep.
  - now elim H.
  - exact Hkeep.
Qed.

Lemma update_keeps_list_unless_fulfilled_witness :
  let git := fun _ : list string =>
               [StdoutData ("abc1234" ++ LF ++ LF ++ "M" ++ TAB ++ "src/foo.ts" ++ LF);
                StdoutEnd; StdoutError (Error "read EIO"); StdoutClose] in
  let this := mkModel (Some "0123abc") [resource_at "/repo" "A" "README.md"] in
  resourceStates (model (update "/repo" git this (Some "HEAD")))
  = [resource_at "/repo" "A" "README.md"].
Proof.
  intros git this.
  apply (update_keeps_list_unless_fulfilled "/repo" git this (Some "HEAD")).
  simpl. discriminate.
Defined.

(** *** The commit count and the branch name *)

(** X8.  When the standard output never ends, [getCommitsCount] never
    returns a number: if the stream closes, the promise is fulfilled with
    [undefined]. *)
Theorem getCommitsCount_undefined_without_end (git : list string -> list event)
    (this : Model) :
  forallb (fun ev => negb (is_end ev)) (git ["rev-list"; "--count"; "HEAD"]) = true ->
  (forall n, returned (getCommitsCount git this) <> Fulfilled (Some n))
  /\ (forall pre post,
        git ["rev-list"; "--count"; "HEAD"] = (pre ++ StdoutClose :: post)%list ->
        forallb (fun ev => negb (settling ev)) pre = true ->
        returned (getCommitsCount git this) = Fulfilled None).
Proof.
  intros Hend. unfold getCommitsCount, runGitCommand. cbn [returned].
  set (endAction := fun (content : string) (_ : option number) =>
                      (Some (parseInt content), @None exn)).
  set (trace := git ["rev-list"; "--count"; "HEAD"]) in *.
  assert (Hful : forall x,
            settled (fold_left (on_event endAction) trace (mkRun "" None Pending []))
            = Fulfilled x -> x = None).
  { intros x Hx.
    apply (fulfilled_iff_closes_first endAction trace
             (mkRun "" None Pending []) x eq_refl) in Hx.
    destruct Hx as (pre & post & Htrace & _ & ->).
    rewrite state_without_end; [reflexivity|].
    rewrite Htrace, forallb_app in Hend. now apply andb_prop in Hend. }
  split.
  - intros n Hn. apply Hful in Hn. discriminate Hn.
  - intros pre post Htrace Hpre.
    assert (Hx : exists x, settled (fold_left (on_event endAction) trace
                                      (mkRun "" None Pending [])) = Fulfilled x).
    { eexists. apply (fulfilled_iff_closes_first endAction trace
                        (mkRun "" None Pending []) _ eq_refl).
      exists pre, post. split; [assumption|]. split; [assumption|reflexivity]. }
    destruct Hx as [x Hx]. rewrite Hx. f_equal. now apply Hful.
Qed.

Lemma getCommitsCount_undefined_without_end_witness :
  returned (getCommitsCount (fun _ => [ProcExit 1; StdoutClose]) (mkModel None []))
  = Fulfilled None.
Proof.
  exact (proj2 (getCommitsCount_undefined_without_end
                  (fun _ => [ProcExit 1; StdoutClose]) (mkModel None []) eq_refl)
           [ProcExit 1] [] eq_refl eq_refl).
Defined.

(** The decimal digits [git] prints are read back by [parseInt]. *)
Lemma parseDigits_digit (c : ascii) (v acc : Z) (s : string) :
  digitValue c = Some v -> (v <? 10)%Z = true ->
  parseDigits 10 (Some acc) (String c s) = parseDigits 10 (Some (acc * 10 + v)%Z) s.
Proof. intros Hc Hv. cbn [parseDigits]. now rewrite Hc, Hv. Qed.

Lemma parseDigits_uint_acc (d : Decimal.uint) (acc : positive) (rest : string) :
  parseDigits 10 (Some (Zpos acc)) (NilEmpty.string_of_uint d ++ LF ++ rest)
  = Some (Zpos (Pos.of_uint_acc d acc)).
Proof.
  revert acc. induction d; intros acc;
    cbn [NilEmpty.string_of_uint append Pos.of_uint_acc];
    [ reflexivity | .. ];
    erewrite parseDigits_digit by reflexivity;
    match goal with
    | |- context [Z.of_nat ?n] =>
        let v := eval vm_compute in (Z.of_nat n) in change (Z.of_nat n) with v
    end;
    rewrite <- IHd;
    match goal with
    | |- parseDigits _ (Some ?a) ?x = parseDigits _ (Some ?b) _ =>
        replace a with b by lia; reflexivity
    end.
Qed.

Lemma parseDigits_uint (d : Decimal.uint) (rest : string) :
  parseDigits 10 (Some 0%Z) (NilEmpty.string_of_uint d ++ LF ++ rest)
  = Some (Z.of_N (Pos.of_uint d)).
Proof.
  induction d;
    cbn [NilEmpty.string_of_uint append Pos.of_uint];
    [ reflexivity | .. ];
    erewrite parseDigits_digit by reflexivity;
    match goal with
    | |- context [Z.of_nat ?n] =>
        let v := eval vm_compute in (Z.of_nat n) in change (Z.of_nat n) with v
    end;
    [ exact IHd | .. ];
    cbn [Z.mul Z.add]; apply parseDigits_uint_acc.
Qed.

Ltac parseInt_radix_ten :=
  match goal with
  | |- parseInt ?s = _ =>
      change (parseInt s)
        with (match parseDigits 10 None s with
              | Some v => to_number false v
              | None => NaN
              end)
  end.

Lemma parseInt_uint (d : Decimal.uint) (rest : string) :
  d <> Decimal.Nil ->
  parseInt (NilEmpty.string_of_uint d ++ LF ++ rest)
  = to_number false (Z.of_N (Pos.of_uint d)).
Proof.
  intros Hd.
  assert (H : parseDigits 10 None (NilEmpty.string_of_uint d ++ LF ++ rest)
              = parseDigits 10 (Some 0%Z) (NilEmpty.string_of_uint d ++ LF ++ rest)).
  { destruct d; [now elim Hd | ..]; reflexivity. }
  rewrite parseDigits_uint in H.
  destruct d as [|d|d|d|d|d|d|d|d|d|d]; [now elim Hd | | ..].
  - destruct d; cbn [NilEmpty.string_of_uint append] in *;
      parseInt_radix_ten; now rewrite H.
  - cbn [NilEmpty.string_of_uint append] in *. parseInt_radix_ten. now rewrite H.
  - cbn [NilEmpty.string_of_uint append] in *. parseInt_radix_ten. now rewrite H.
  - cbn [NilEmpty.string_of_uint append] in *. parseInt_radix_ten. now rewrite H.
  - cbn [NilEmpty.string_of_uint append] in *. parseInt_radix_ten. now rewrite H.
  - cbn [NilEmpty.string_of_uint append] in *. parseInt_radix_ten. now rewrite H.
  - cbn [NilEmpty.string_of_uint append] in *. parseInt_radix_ten. now rewrite H.
  - cbn [NilEmpty.string_of_uint append] in *. parseInt_radix_ten. now rewrite H.
  - cbn [NilEmpty.string_of_uint append] in *. parseInt_radix_ten. now rewrite H.
  - cbn [NilEmpty.string_of_uint append] in *. parseInt_radix_ten. now rewrite H.
Qed.

Lemma parseInt_printed (n : Z) (rest : string) :
  (0 <= n)%Z -> parseInt (string_of_Z n ++ LF ++ rest) = to_number false n.
Proof.
  intros Hn. destruct n as [|p|p]; [reflexivity | | lia].
  unfold string_of_Z. cbn [Z.to_int NilZero.string_of_int].
  pose proof (DecimalPos.Unsigned.of_to p) as Hp.
  pose proof (DecimalPos.Unsigned.to_uint_nonnil p) as Hnil.
  unfold NilZero.string_of_uint.
  destruct (Pos.to_uint p) eqn:E; [now elim Hnil | ..];
    rewrite parseInt_uint by discriminate; now rewrite Hp.
Qed.

(** Up to 2^53 the Number for an integer is the integer. *)
Lemma to_number_exact (n : Z) :
  (0 <= n <= 9007199254740992)%Z -> to_number false n = Int n.
Proof.
  intros Hn. unfold to_number.
  destruct (Z.eqb_spec n 0) as [->|Hz]; [reflexivity|].
  change (2 ^ 53)%Z with 9007199254740992%Z.
  destruct (Z.ltb_spec n 9007199254740992) as [Hlt|Hge]; [reflexivity|].
  assert (n = 9007199254740992%Z) as -> by lia.
  vm_compute. reflexivity.
Qed.

(** X9.  Reading undoes printing: when [git rev-list --count] prints the
    count [n] in decimal followed by a line feed, [getCommitsCount] is
    fulfilled with the Number for [n]: with [n] itself for every count up to
    2^53, and with the double nearest to [n] beyond. *)
Theorem getCommitsCount_of_printed (git : list string -> list event)
    (this : Model) (chunks : list string) (n : Z) (rest : string) :
  (0 <= n)%Z ->
  delivers (git ["rev-list"; "--count"; "HEAD"]) chunks ->
  text_of chunks = string_of_Z n ++ LF ++ rest ->
  returned (getCommitsCount git this) = Fulfilled (Some (to_number false n))
  /\ ((n <= 9007199254740992)%Z ->
      returned (getCommitsCount git this) = Fulfilled (Some (Int n)))
  /\ escaped (getCommitsCount git this) = [].
Proof.
  intros Hn Hgit Htext.
  unfold getCommitsCount, runGitCommand.
  rewrite (run_delivers _ _ _ _ Hgit). cbn [returned escaped settled uncaught fst snd optlist].
  rewrite Htext, (parseInt_printed n rest Hn).
  split; [reflexivity|]. split; [|reflexivity].
  intros Hmax. now rewrite to_number_exact by lia.
Qed.

Lemma getCommitsCount_of_printed_witness :
  returned (getCommitsCount
              (fun _ => [StdoutData "1907"; StdoutData LF; StdoutEnd; ProcExit 0;
                         StdoutClose])
              (mkModel None []))
  = Fulfilled (Some (Int 1907)).
Proof.
  refine (proj1 (proj2 (getCommitsCount_of_printed
                   (fun _ => [StdoutData "1907"; StdoutData LF; StdoutEnd; ProcExit 0;
                              StdoutClose])
                   (mkModel None []) ["1907"; LF] 1907 "" _ eq_refl eq_refl)) _);
    lia.
Defined.

(** Beyond 2^53 the count is rounded, and a number of more than 308 digits
    is an infinity. *)
Example parseInt_rounds :
  parseInt "9007199254740993" = Int 9007199254740992
  /\ parseInt "9007199254740995" = Int 9007199254740996
  /\ to_number false (10 ^ 400) = Infinity false
  /\ parseInt "-0" = NegZero.
Proof. repeat split; vm_compute; reflexivity. Qed.

(** White space at both ends of a text that is trimmed already. *)
Lemma trimStart_white (ws s : string) :
  all_white ws = true -> trimStart (ws ++ s) = trimStart s.
Proof.
  induction ws as [|c ws IH]; simpl; intros H.
  - reflexivity.
  - apply andb_prop in H. destruct H as [Hc H]. rewrite Hc. now apply IH.
Qed.

Lemma trimEnd_white (ws : string) : all_white ws = true -> trimEnd ws = "".
Proof.
  induction ws as [|c ws IH]; simpl; intros H.
  - reflexivity.
  - apply andb_prop in H. destruct H as [Hc H]. now rewrite (IH H), Hc.
Qed.

Lemma trimEnd_append_white (s ws : string) :
  all_white ws = true -> trimEnd (s ++ ws) = trimEnd s.
Proof.
  intros H. induction s as [|c s IH]; simpl.
  - now apply trimEnd_white.
  - now rewrite IH.
Qed.

Lemma trim_padded (ws1 name ws2 : string) :
  all_white ws1 = true -> all_white ws2 = true -> trim name = name ->
  trim (ws1 ++ name ++ ws2) = name.
Proof.
  intros H1 H2 Hname. unfold trim in *.
  rewrite trimStart_white by assumption.
  destruct name as [|c name].
  - simpl. rewrite <- (append_nil_r ws2).
    now rewrite (trimStart_white ws2 "") by assumption.
  - cbn [append trimStart] in *.
    destruct (isWhiteSpace c) eqn:Hc.
    + (* a trimmed name does not start with white space *)
      exfalso.
      assert (Hlen : forall t, (String.length (trimEnd (trimStart t)) <= String.length t)%nat).
      { clear. intros t.
        assert (Hs : (String.length (trimStart t) <= String.length t)%nat).
        { induction t as [|a t IH]; simpl; [lia|].
          destruct (isWhiteSpace a); simpl; lia. }
        assert (He : forall u, (String.length (trimEnd u) <= String.length u)%nat).
        { induction u as [|a u IH]; simpl; [lia|].
          destruct (trimEnd u); [destruct (isWhiteSpace a)|]; simpl in *; lia. }
        specialize (He (trimStart t)). lia. }
      specialize (Hlen name). rewrite Hname in Hlen. simpl in Hlen. lia.
    + change (String c (name ++ ws2)) with (String c name ++ ws2).
      rewrite trimEnd_append_white by assumption. exact Hname.
Qed.

(** X10.  [getCurrentBranch] returns the name git prints without the white
    space around it: when the output is a name that neither starts nor ends
    with white space, preceded and followed by white space only (the line
    feed after the name, a carriage return before it), the result is the
    name.  *)
Theorem getCurrentBranch_trims (git : list string -> list event)
    (this : Model) (chunks : list string) (ws1 name ws2 : string) :
  delivers (git ["rev-parse"; "--abbrev-ref"; "HEAD"]) chunks ->
  text_of chunks = ws1 ++ name ++ ws2 ->
  all_white ws1 = true -> all_white ws2 = true -> trim name = name ->
  returned (getCurrentBranch git this) = Fulfilled name
  /\ escaped (getCurrentBranch git this) = []
  /\ model (getCurrentBranch git this) = this.
Proof.
  intros Hgit Htext H1 H2 Hname.
  unfold getCurrentBranch, runGitCommand.
  rewrite (run_delivers _ _ _ _ Hgit).
  cbn [returned escaped model settled uncaught fst snd optlist map_promise].
  rewrite Htext, (trim_padded ws1 name ws2 H1 H2 Hname).
  repeat split.
Qed.

Lemma getCurrentBranch_trims_witness :
  returned (getCurrentBranch
              (fun _ => [StdoutData ("feature/log view" ++ CR ++ LF); StdoutEnd;
                         StdoutClose; ProcExit 0])
              (mkModel None []))
  = Fulfilled "feature/log view".
Proof.
  exact (proj1 (getCurrentBranch_trims
                  (fun _ => [StdoutData ("feature/log view" ++ CR ++ LF); StdoutEnd;
                             StdoutClose; ProcExit 0])
                  (mkModel None []) ["feature/log view" ++ CR ++ LF]
                  "" "feature/log view" (CR ++ LF)
                  eq_refl eq_refl eq_refl eq_refl eq_refl)).
Defined.

(** *** The tokenizer on any output *)

Lemma list_ind_six {A : Type} (P : list A -> Prop) :
  (forall l, (List.length l < 6)%nat -> P l) ->
  (forall a b c d e f rest, P rest -> P (a :: b :: c :: d :: e :: f :: rest)) ->
  forall l, P l.
Proof.
  intros Hshort Hstep l.
  remember (List.length l) as n eqn:Hn. revert l Hn.
  induction n as [n IH] using lt_wf_ind. intros l Hn.
  destruct l as [|a [|b [|c [|d [|e [|f rest]]]]]];
    try (apply Hshort; simpl; lia).
  apply Hstep. apply (IH (List.length rest)); [subst n; simpl; lia | reflexivity].
Qed.

(** The body of the inner loop looks at the index modulo six only. *)
Lemma logEntries_item_at (value : string) (j k : nat)
    (s : LogEntry * list LogEntry) :
  logEntries_item value (S (j + 6 * k)) s = logEntries_item value (S j) s.
Proof.
  unfold logEntries_item. destruct s as [v entries].
  cbn [Nat.eqb]. rewrite !Nat.sub_succ, !Nat.sub_0_r.
  now rewrite (Nat.mul_comm 6 k), Nat.Div0.mod_add.
Qed.

Lemma forEach_item_step (value : string) (rest : list string) (j k : nat)
    (s : LogEntry * list LogEntry) :
  forEach logEntries_item (value :: rest) (S (j + 6 * k)) s
  = forEach logEntries_item rest (S (S j + 6 * k))
      (fst (logEntries_item value (S j) s)).
Proof.
  cbn [forEach]. rewrite logEntries_item_at.
  pose proof (logEntries_item_no_throw value (S j) s) as Hno.
  destruct (logEntries_item value (S j) s) as [s' [e|]]; simpl in Hno;
    [discriminate Hno | reflexivity].
Qed.

Lemma forEach_item_six (s h r a e d : string) (rest : list string) (k : nat)
    (v : LogEntry) (entries : list LogEntry) :
  forEach logEntries_item (s :: h :: r :: a :: e :: d :: rest) (S (0 + 6 * k))
    (v, entries)
  = forEach logEntries_item rest (S (0 + 6 * S k))
      (mkLogEntry (Some s) (Some h) (Some r) (Some a) (Some e) (Some d),
       (entries ++ [mkLogEntry (Some s) (Some h) (Some r) (Some a) (Some e) (Some d)])%list).
Proof.
  do 6 rewrite forEach_item_step.
  replace (6 + 6 * k)%nat with (0 + 6 * S k)%nat by lia.
  reflexivity.
Qed.

Lemma forEach_item_short (fields : list string) (k : nat) (v : LogEntry)
    (entries : list LogEntry) :
  (List.length fields < 6)%nat ->
  snd (fst (forEach logEntries_item fields (S (0 + 6 * k)) (v, entries))) = entries.
Proof.
  intros Hlen.
  destruct fields as [|f1 [|f2 [|f3 [|f4 [|f5 [|f6 fields]]]]]];
    try (simpl in Hlen; lia);
    repeat rewrite forEach_item_step; reflexivity.
Qed.

Lemma forEach_item_groups (fields : list string) :
  forall (k : nat) (v : LogEntry) (entries : list LogEntry),
    snd (fst (forEach logEntries_item fields (S (0 + 6 * k)) (v, entries)))
    = (entries ++ groups_of_six fields)%list.
Proof.
  induction fields as [fields Hlen | s h r a e d rest IH] using list_ind_six;
    intros k v entries.
  - rewrite forEach_item_short by assumption.
    destruct fields as [|f1 [|f2 [|f3 [|f4 [|f5 [|f6 fields]]]]]];
      try (simpl in Hlen; lia); simpl; now rewrite app_nil_r.
  - rewrite forEach_item_six, IH. cbn [groups_of_six].
    now rewrite <- app_assoc.
Qed.

Lemma logEntries_entry_groups (fragment : string) (index : nat)
    (entries : list LogEntry) :
  logEntries_entry fragment index entries
  = ((entries ++ entries_of_fragment fragment)%list, None).
Proof.
  unfold logEntries_entry, entries_of_fragment.
  destruct fragment as [|c fragment].
  - simpl. now rewrite app_nil_r.
  - cbn [truthy negb].
    pose proof (split_from_not_nil itemSeparator (String c fragment) "" 0) as Hne.
    fold (split itemSeparator (String c fragment)) in Hne.
    destruct (split itemSeparator (String c fragment)) as [|lead fields];
      [contradiction|].
    cbn [forEach logEntries_item Nat.eqb tl].
    change 1%nat with (S (0 + 6 * 0)).
    pose proof (forEach_item_groups fields 0 undefined_locals entries) as Hg.
    pose proof (forEach_no_throw logEntries_item fields (S (0 + 6 * 0))
                  (undefined_locals, entries) logEntries_item_no_throw) as Hno.
    destruct (forEach logEntries_item fields (S (0 + 6 * 0))
                (undefined_locals, entries)) as [[v es] thrown].
    simpl in Hg, Hno. now subst.
Qed.

Lemma logEntries_end_tokenized (text : string) (entries : list LogEntry) :
  logEntries_end text entries = ((entries ++ tokenized text)%list, None).
Proof.
  unfold logEntries_end, tokenized.
  generalize 0%nat as index. revert entries.
  induction (split entrySeparator text) as [|fragment fragments IH];
    intros entries index; simpl.
  - now rewrite app_nil_r.
  - rewrite logEntries_entry_groups, IH. now rewrite <- app_assoc.
Qed.

Lemma groups_of_six_defined (fields : list string) :
  Forall fully_defined (groups_of_six fields).
Proof.
  induction fields as [fields Hlen | s h r a e d rest IH] using list_ind_six.
  - destruct fields as [|f1 [|f2 [|f3 [|f4 [|f5 [|f6 fields]]]]]];
      try (simpl in Hlen; lia); constructor.
  - cbn [groups_of_six]. constructor; [|exact IH].
    unfold fully_defined. simpl. repeat split; discriminate.
Qed.

Lemma tokenized_defined (text : string) : Forall fully_defined (tokenized text).
Proof.
  unfold tokenized.
  induction (split entrySeparator text) as [|fragment fragments IH]; simpl.
  - constructor.
  - apply Forall_app. split; [apply groups_of_six_defined | exact IH].
Qed.

(** X11.  What [getLogEntries] returns for any output: the output is cut at
    the entry separator, each fragment is cut at the item separator, the
    first piece of a fragment is dropped and the others are taken six at a
    time, each complete group being one entry; the pieces left after the
    last complete group of a fragment are dropped.  Nothing is thrown. *)
Theorem getLogEntries_groups_of_six (git : list string -> list event)
    (this : Model) (start count : Z) (chunks : list string) :
  delivers (git ["log"; format; "--skip=" ++ string_of_Z start;
                 "--max-count=" ++ string_of_Z count]) chunks ->
  returned (getLogEntries git this start count)
  = Fulfilled (tokenized (text_of chunks))
  /\ escaped (getLogEntries git this start count) = [].
Proof.
  intros Hgit. unfold getLogEntries, runGitCommand.
  rewrite (run_delivers _ _ _ _ Hgit).
  cbn [returned escaped settled uncaught].
  rewrite logEntries_end_tokenized. split; reflexivity.
Qed.

Lemma getLogEntries_groups_of_six_witness :
  let i := itemSeparator in
  let output := LF ++ i ++ "a" ++ i ++ "b" ++ i ++ "c" ++ i ++ "d" ++ i ++ "e"
                ++ i ++ "f" ++ i ++ "g" ++ i ++ "h" ++ i ++ "i" ++ i ++ "j"
                ++ i ++ "k" ++ i ++ "l" ++ i ++ "m" ++ entrySeparator ++ "n" in
  returned (getLogEntries (fun _ => stream [output]) (mkModel None []) 0 1)
  = Fulfilled [mkLogEntry (Some "a") (Some "b") (Some "c") (Some "d") (Some "e")
                 (Some "f");
               mkLogEntry (Some "g") (Some "h") (Some "i") (Some "j") (Some "k")
                 (Some "l")].
Proof.
  intros i output.
  exact (proj1 (getLogEntries_groups_of_six (fun _ => stream [output])
                  (mkModel None []) 0 1 [output] eq_refl)).
Defined.

(** X12.  Whatever the events of the process, an entry [getLogEntries] is
    fulfilled with has its six fields defined: no entry is returned with an
    [undefined] field. *)
Theorem getLogEntries_entries_defined (git : list string -> list event)
    (this : Model) (start count : Z) (entries : list LogEntry) :
  returned (getLogEntries git this start count) = Fulfilled entries ->
  Forall fully_defined entries.
Proof.
  unfold getLogEntries, runGitCommand. cbn [returned].
  set (trace := git _). clearbody trace.
  assert (Hinv : forall (r : run (list LogEntry)),
            Forall fully_defined (state r) ->
            (forall es, settled r = Fulfilled es -> Forall fully_defined es) ->
            forall es,
              settled (fold_left (on_event logEntries_end) trace r) = Fulfilled es ->
              Forall fully_defined es).
  { induction trace as [|ev trace IH]; intros r Hstate Hsettled es; simpl.
    - apply Hsettled.
    - apply IH.
      + destruct ev; simpl; try exact Hstate.
        rewrite logEntries_end_tokenized. simpl.
        apply Forall_app. split; [exact Hstate | apply tokenized_defined].
      + intros es'. rewrite settled_on_event.
        destruct ev; try apply Hsettled;
          destruct (settled r) eqn:E; simpl; intros H;
          try discriminate H; try (apply Hsettled; exact H).
        injection H as <-. exact Hstate. }
  apply Hinv; simpl.
  - constructor.
  - discriminate.
Qed.

Lemma getLogEntries_entries_defined_witness :
  Forall fully_defined
    [mkLogEntry (Some "s") (Some "h") (Some "") (Some "a") (Some "e") (Some "d")].
Proof.
  exact (getLogEntries_entries_defined
           (fun _ => [StdoutData (itemSeparator ++ "s" ++ itemSeparator ++ "h"
                                  ++ itemSeparator ++ "" ++ itemSeparator ++ "a"
                                  ++ itemSeparator ++ "e" ++ itemSeparator ++ "d");
                      StdoutEnd; StdoutClose; StdoutData "x"; StdoutEnd])
           (mkModel None []) 0 1 _ eq_refl).
Defined.

(** *** Line endings *)

Lemma split_lines_from_plain (c : ascii) (s cur : string) :
  Ascii.eqb c "010" = false -> Ascii.eqb c "013" = false ->
  split_lines_from cur (String c s) = split_lines_from (cur ++ String c "") s.
Proof.
  intros Hlf Hcr. cbn [split_lines_from]. rewrite Hlf.
  destruct s as [|c' s']; [reflexivity|]. now rewrite Hcr.
Qed.

Lemma split_lines_from_line (eol line rest cur : string) :
  eol = LF \/ eol = CR ++ LF ->
  one_line line = true ->
  split_lines_from cur (line ++ eol ++ rest)
  = (cur ++ line) :: split_lines_from "" rest.
Proof.
  intros Heol. revert cur. induction line as [|c line IH]; intros cur Hline.
  - rewrite append_nil_r. destruct Heol as [-> | ->]; reflexivity.
  - cbn [one_line] in Hline.
    apply andb_prop in Hline. destruct Hline as [Hc Hline].
    apply andb_prop in Hc. destruct Hc as [Hlf Hcr].
    apply negb_true_iff in Hlf, Hcr.
    change (String c line ++ eol ++ rest) with (String c (line ++ eol ++ rest)).
    rewrite split_lines_from_plain by assumption.
    rewrite IH by assumption. now rewrite append_assoc.
Qed.

Lemma split_lines_unlines (eol : string) (lines : list string) :
  eol = LF \/ eol = CR ++ LF ->
  Forall (fun line => one_line line = true) lines ->
  split_lines (unlines eol lines) = (lines ++ [""])%list.
Proof.
  intros Heol Hall. unfold split_lines.
  induction Hall as [|line lines Hline _ IH]; cbn [unlines fold_right app].
  - reflexivity.
  - fold (unlines eol lines).
    rewrite (split_lines_from_line eol line _ "" Heol Hline).
    now rewrite IH.
Qed.

(** X14.  Both line endings are understood.  When the output of [git show]
    is made of lines that each end with a line feed, or each with a carriage
    return and a line feed, [update] records the first line as [sha] and
    builds the published list, in order, from the non-empty lines from the
    third one onward, up to the first line on which the constructor throws
    (one record per line when it throws on none): no carriage return is left
    in the hash or in a line given to the constructor. *)
Theorem update_line_endings (rootPath : string) (git : list string -> list event)
    (this : Model) (c : ascii) (s : string) (chunks : list string)
    (eol : string) (lines : list string) :
  eol = LF \/ eol = CR ++ LF ->
  Forall (fun line => one_line line = true) lines ->
  lines <> [] ->
  delivers (git ["show"; "--format=%h"; "--name-status"; String c s]) chunks ->
  text_of chunks = unlines eol lines ->
  let o := update rootPath git this (Some (String c s)) in
  sha (model o) = nth_error lines 0
  /\ resourceStates (model o)
     = fst (resources_of rootPath (filter truthy (skipn 2 lines)))
  /\ ((forall line, In line (filter truthy (skipn 2 lines)) ->
         exists r, new_Resource rootPath line = Ok r) ->
      Forall2 (fun line r => new_Resource rootPath line = Ok r)
              (filter truthy (skipn 2 lines)) (resourceStates (model o))).
Proof.
  intros Heol Hall Hne Hgit Htext o.
  enough (H : sha (model o) = nth_error lines 0
              /\ resourceStates (model o)
                 = fst (resources_of rootPath (filter truthy (skipn 2 lines)))).
  { destruct H as [H1 H2]. split; [exact H1|]. split; [exact H2|].
    intros Hok. rewrite H2. now apply resources_of_all_ok. }
  subst o.
  unfold update, _updateResources, runGitCommand.
  rewrite (run_delivers _ _ _ _ Hgit), Htext.
  rewrite updateResources_end_spec. unfold status_lines.
  rewrite (split_lines_unlines eol lines Heol Hall).
  cbn [settled state uncaught fst snd map_promise returned model spawned escaped
       sha _sha resourceStates].
  destruct lines as [|first [|second rest]]; [now elim Hne | split; reflexivity |].
  split; [reflexivity|].
  cbn [app skipn]. rewrite filter_app. cbn [filter truthy]. now rewrite app_nil_r.
Qed.

Lemma update_line_endings_witness :
  let lines := ["abc1234"; ""; "M" ++ TAB ++ "src/foo.ts"; "D" ++ TAB ++ "src/old.ts"] in
  let o := update "/repo" (fun _ => stream [unlines (CR ++ LF) lines])
             (mkModel None []) (Some "abc1234") in
  sha (model o) = Some "abc1234"
  /\ resourceStates (model o)
     = [resource_at "/repo" "M" "src/foo.ts"; resource_at "/repo" "D" "src/old.ts"].
Proof.
  intros lines o.
  pose proof (update_line_endings "/repo"
                (fun _ => stream [unlines (CR ++ LF) lines])
                (mkModel None []) "a" "bc1234" [unlines (CR ++ LF) lines]
                (CR ++ LF) lines (or_intror eq_refl)) as H.
  destruct H as [H1 [H2 _]]; try reflexivity.
  - repeat constructor.
  - discriminate.
  - split; [exact H1 | exact H2].
Defined.
